(** * The IoT data space MCP server: filter normalisation, keyword resolution
      and query dispatch of [src/mcp_server.py], embedded and verified.

    Python strings are modelled as [string]; a character is a code point
    below 256 (the Latin-1 range), which is the range on which the
    built-ins used by the server ([str.strip], [str.lower], [float]) are
    reproduced here. [None] is the [None] of [option]. A tool returns the
    dict with the key [error], or what the store answered; the requests it
    sends to the store are recorded next to the value it returns. *)

From Stdlib Require Import Ascii String List NArith Bool Lia.
From stdpp Require Import base option list gmap strings.

(** ** Python built-ins used by the server *)

Module Py.

Definition code (c : ascii) : N := N_of_ascii c.

Definition in_range (lo hi : N) (c : ascii) : bool :=
  ((lo <=? code c) && (code c <=? hi))%N.

(** [str.isspace] on one character: TAB..CR, FS..US, SPACE, NEL, NBSP. *)
Definition isspace (c : ascii) : bool :=
  in_range 9 13 c || in_range 28 32 c || (code c =? 133)%N || (code c =? 160)%N.

(** [str.lstrip()], [str.rstrip()] and [str.strip()] without argument. *)
Fixpoint lstrip (s : string) : string :=
  match s with
  | EmptyString => EmptyString
  | String c s' => if isspace c then lstrip s' else s
  end.

Fixpoint rstrip (s : string) : string :=
  match s with
  | EmptyString => EmptyString
  | String c s' =>
      match rstrip s' with
      | EmptyString => if isspace c then EmptyString else String c EmptyString
      | r => String c r
      end
  end.

Definition strip (s : string) : string := rstrip (lstrip s).

(** [str.lower()]: A..Z and the Latin-1 capitals U+00C0..U+00DE (the
    multiplication sign U+00D7 excepted) move up by 32. *)
Definition lower_char (c : ascii) : ascii :=
  if in_range 65 90 c || (in_range 192 222 c && negb (code c =? 215)%N)
  then ascii_of_N (code c + 32)
  else c.

Fixpoint lower (s : string) : string :=
  match s with
  | EmptyString => EmptyString
  | String c s' => String (lower_char c) (lower s')
  end.

(** [s.startswith(p)], returning what follows the prefix. *)
Fixpoint strip_prefix (p s : string) : option string :=
  match p with
  | EmptyString => Some s
  | String a p' =>
      match s with
      | EmptyString => None
      | String b s' => if Ascii.eqb a b then strip_prefix p' s' else None
      end
  end.

(** [sub in s]. *)
Fixpoint contains (sub s : string) : bool :=
  match strip_prefix sub s with
  | Some _ => true
  | None =>
      match s with
      | EmptyString => false
      | String _ s' => contains sub s'
      end
  end.

(** The text before and after the leftmost occurrence of [sep] in [s]. *)
Fixpoint partition (sep s : string) : option (string * string) :=
  match strip_prefix sep s with
  | Some r => Some (EmptyString, r)
  | None =>
      match s with
      | EmptyString => None
      | String c s' =>
          match partition sep s' with
          | Some (l, r) => Some (String c l, r)
          | None => None
          end
      end
  end.

(** [s.split(sep, 1)] for a non-empty [sep]: at most one split, at the
    leftmost occurrence. *)
Definition split1 (sep s : string) : list string :=
  match partition sep s with
  | Some (l, r) => [l; r]
  | None => [s]
  end.

(** [s.split(sep)] for a one-character separator. *)
Fixpoint split (sep : ascii) (s : string) : list string :=
  match s with
  | EmptyString => [EmptyString]
  | String c s' =>
      if Ascii.eqb c sep then EmptyString :: split sep s'
      else match split sep s' with
           | h :: t => String c h :: t
           | [] => [String c EmptyString]
           end
  end.

(** [sep.join(parts)]. *)
Definition join (sep : string) (parts : list string) : string :=
  String.concat sep parts.

(** *** [float(str)]

    CPython converts a [str] in four stages: non-ASCII white space and
    digits are mapped to ASCII, C white space is stripped at both ends,
    underscores between digits are removed, and the rest has to be, in
    full, a decimal literal or a spelling of infinity or NaN. *)

Definition is_digit (c : ascii) : bool := in_range 48 57 c.

(** [Py_ISSPACE]: TAB, LF, VT, FF, CR and SPACE. *)
Definition c_isspace (c : ascii) : bool :=
  in_range 9 13 c || (code c =? 32)%N.

(** [Py_TOLOWER]: ASCII letters only. *)
Definition c_tolower (c : ascii) : ascii :=
  if in_range 65 90 c then ascii_of_N (code c + 32) else c.

Fixpoint is_ascii (s : string) : bool :=
  match s with
  | EmptyString => true
  | String c s' => (code c <? 128)%N && is_ascii s'
  end.

(** The non-ASCII path of the first stage: a white space character becomes
    a space; any other character from U+007F on is no decimal digit in
    this range, is replaced by [?] and ends the string. *)
Fixpoint transform_chars (s : string) : string :=
  match s with
  | EmptyString => EmptyString
  | String c s' =>
      if (code c <? 127)%N then String c (transform_chars s')
      else if isspace c then String " "%char (transform_chars s')
      else String "?"%char EmptyString
  end.

Definition transform_decimal_and_space (s : string) : string :=
  if is_ascii s then s else transform_chars s.

Fixpoint c_lstrip (s : string) : string :=
  match s with
  | EmptyString => EmptyString
  | String c s' => if c_isspace c then c_lstrip s' else s
  end.

Fixpoint c_rstrip (s : string) : string :=
  match s with
  | EmptyString => EmptyString
  | String c s' =>
      match c_rstrip s' with
      | EmptyString => if c_isspace c then EmptyString else String c EmptyString
      | r => String c r
      end
  end.

Fixpoint has_underscore (s : string) : bool :=
  match s with
  | EmptyString => false
  | String c s' => Ascii.eqb c "_"%char || has_underscore s'
  end.

(** An underscore is allowed only between two digits; [prev] is the
    character before [s]. *)
Fixpoint remove_underscores (prev : ascii) (s : string) : option string :=
  match s with
  | EmptyString => if Ascii.eqb prev "_"%char then None else Some EmptyString
  | String c s' =>
      if Ascii.eqb c "_"%char then
        if is_digit prev then remove_underscores c s' else None
      else if Ascii.eqb prev "_"%char && negb (is_digit c) then None
      else option_map (String c) (remove_underscores c s')
  end.

(** The digits at the front of [s]: how many, and what follows them. *)
Fixpoint span_digits (s : string) : nat * string :=
  match s with
  | EmptyString => (0, EmptyString)
  | String c s' =>
      if is_digit c then let '(n, r) := span_digits s' in (S n, r)
      else (0, s)
  end.

Definition skip_sign (s : string) : string :=
  match s with
  | String c s' =>
      if Ascii.eqb c "+"%char || Ascii.eqb c "-"%char then s' else s
  | EmptyString => s
  end.

(** The exponent part: when no digit follows [e] and the sign, nothing of
    it is consumed. *)
Definition skip_exponent (s : string) : string :=
  match s with
  | String c s' =>
      if Ascii.eqb c "e"%char || Ascii.eqb c "E"%char then
        match span_digits (skip_sign s') with
        | (0, _) => s
        | (_, r) => r
        end
      else s
  | EmptyString => s
  end.

(** [strtod]: what follows the longest decimal literal at the front of
    [s], [None] when there is none. *)
Definition strtod (s : string) : option string :=
  let '(n1, r1) := span_digits (skip_sign s) in
  let '(n2, r2) :=
    match r1 with
    | String c r => if Ascii.eqb c "."%char then span_digits r else (0, r1)
    | EmptyString => (0, r1)
    end in
  match n1 + n2 with
  | 0 => None
  | _ => Some (skip_exponent r2)
  end.

(** [s] starts with [t] up to the case of ASCII letters ([t] in lower
    case). *)
Fixpoint case_insensitive_match (t s : string) : option string :=
  match t with
  | EmptyString => Some s
  | String a t' =>
      match s with
      | EmptyString => None
      | String b s' =>
          if Ascii.eqb (c_tolower b) a then case_insensitive_match t' s'
          else None
      end
  end.

Definition parse_inf_or_nan (s : string) : option string :=
  let s1 := skip_sign s in
  match case_insensitive_match "inf" s1 with
  | Some r =>
      match case_insensitive_match "inity" r with
      | Some r' => Some r'
      | None => Some r
      end
  | None => case_insensitive_match "nan" s1
  end.

(** The last stage: the literal has to extend to the end of the string. *)
Definition float_from_string_inner (s : string) : bool :=
  match strtod s with
  | Some r => String.eqb r EmptyString
  | None =>
      match parse_inf_or_nan s with
      | Some r => String.eqb r EmptyString
      | None => false
      end
  end.

(** [float(s)] returns (rather than raising [ValueError]). *)
Definition float_ok (s : string) : bool :=
  let t := c_rstrip (c_lstrip (transform_decimal_and_space s)) in
  if has_underscore t then
    match remove_underscores "000"%char t with
    | Some t' => float_from_string_inner t'
    | None => false
    end
  else float_from_string_inner t.

End Py.

(** ** The type catalog and the store *)

(** An attribute of a type, as the catalog document lists it. *)
Record AttributeEntry := {
  attr_name : string;
  attr_description : string
}.

(** The value [type_data] of a catalog type. *)
Record TypeData := {
  td_description : string;
  td_attributes : list AttributeEntry
}.

(** One element of the catalog's [types] list: a dict from type names to
    their data, in insertion order. *)
Definition TypesEntry : Type := list (string * TypeData).

(** The request handed to [requests.request]. *)
Record Request := {
  req_method : string;
  req_url : string;
  req_headers : gmap string string;
  req_params : gmap string string
}.

(** What a tool call hands back, by the [return] statement that produced it:
    the dict [{"error": msg}] built at lines 105, 165 or 170, the decoded
    body of the store's answer returned at line 131, or an exception of the
    HTTP client or of the JSON decoder that escapes.  In Python the first
    two are plain values, and a decoded body may itself be a dict with an
    [error] key: what tells them apart for a caller is the request trace,
    so the theorems state which requests were sent next to the value and
    never take [ErrorDict] alone as the sign that nothing was sent. *)
Inductive Result (Json : Type) :=
  | ErrorDict (msg : string)
  | Objects (body : Json)
  | Raised.
Arguments ErrorDict {Json} msg.
Arguments Objects {Json} body.
Arguments Raised {Json}.

(** ** [mcp_server.py] *)

Definition broker : string := "http://localhost:1026".

(** The double quote character, and the one-character string of it. *)
Definition dquote : ascii := "034"%char.
Definition double_quote : string := String dquote EmptyString.

Definition link_header : string :=
  "<https://iot-data-space.github.io/context/context/mcp.jsonld>; rel="
  +:+ double_quote +:+ "http://www.w3.org/ns/json-ld#context" +:+ double_quote
  +:+ "; type=" +:+ double_quote +:+ "application/ld+json" +:+ double_quote.

Definition supported_operators : list string :=
  ["=="; "!="; "<="; ">="; "<"; ">"; "contains"].

Definition is_number (value : string) : bool := Py.float_ok value.

Definition first_char (s : string) : option ascii :=
  match s with
  | String c _ => Some c
  | EmptyString => None
  end.

Fixpoint last_char (s : string) : option ascii :=
  match s with
  | EmptyString => None
  | String c EmptyString => Some c
  | String _ s' => last_char s'
  end.

(** One of the two quote characters, single or double. *)
Definition is_quote (c : ascii) : bool :=
  Ascii.eqb c "'"%char || Ascii.eqb c dquote.

(** Line 88: at least two characters, the first equal to the last, and the
    first a quote character. *)
Definition is_quoted (value : string) : bool :=
  (2 <=? String.length value) &&
  match first_char value, last_char value with
  | Some a, Some b => Ascii.eqb a b && is_quote a
  | _, _ => false
  end.

(** Lines 107-109: the value as it enters the clause. *)
Definition quote_value (raw_value : string) : string :=
  if negb (is_number raw_value) && negb (is_quoted raw_value)
  then double_quote +:+ raw_value +:+ double_quote
  else raw_value.

(** The loop over the operators (lines 94-102): the first operator of the
    list that occurs in [filter_str] ends the loop; [attr], [op] and
    [raw_value] stay [None] when no operator occurs, or when the split does
    not give two parts. *)
Fixpoint scan_operators (operators : list string) (filter_str : string)
  : option (string * string * string) :=
  match operators with
  | [] => None
  | operator :: rest =>
      if Py.contains operator filter_str then
        match Py.split1 operator filter_str with
        | [l; r] => Some (Py.strip l, operator, Py.strip r)
        | _ => None
        end
      else scan_operators rest filter_str
  end.

Definition invalid_filter (filter_str : string) : string :=
  "Invalid filter '" +:+ filter_str +:+ "': unsupported operator".

(** One round of the loop over the filters (lines 94-111): the clause, or
    the message of the error dict. [not op] holds for [None] and for the
    empty string. *)
Definition normalize_filter (filter_str : string) : string + string :=
  match scan_operators supported_operators filter_str with
  | Some (attr, op, raw_value) =>
      if String.eqb op "" then inl (invalid_filter filter_str)
      else inr (attr +:+ op +:+ quote_value raw_value)
  | None => inl (invalid_filter filter_str)
  end.

(** The loop over the filters, with the clauses appended so far. *)
Fixpoint normalize_loop (filters normalized_filters : list string)
  : string + list string :=
  match filters with
  | [] => inr normalized_filters
  | filter_str :: rest =>
      match normalize_filter filter_str with
      | inl msg => inl msg
      | inr clause => normalize_loop rest (normalized_filters ++ [clause])
      end
  end.

(** The body of [if filters:] (lines 92-113): the normalizer. *)
Definition normalize (filters : list string) : string + string :=
  match normalize_loop filters [] with
  | inl msg => inl msg
  | inr normalized_filters => inr (Py.join ";" normalized_filters)
  end.

(** Lines 90-113: [query] stays [None] when [filters] is [None] or empty. *)
Definition read_query (filters : option (list string))
  : string + option string :=
  match filters with
  | None | Some [] => inr None
  | Some fs =>
      match normalize fs with
      | inl msg => inl msg
      | inr query => inr (Some query)
      end
  end.

(** [x != None and str(x).strip() != ""] *)
Definition nonblank (x : option string) : bool :=
  match x with
  | Some s => negb (String.eqb (Py.strip s) "")
  | None => false
  end.

Definition set_param (key : string) (x : option string)
  (params : gmap string string) : gmap string string :=
  match x with
  | Some v => if nonblank x then <[key := v]> params else params
  | None => params
  end.

(** Lines 119-127. *)
Definition build_params (type_id object_id query attributes : option string)
  : gmap string string :=
  set_param "attrs" attributes
    (set_param "q" query
      (set_param "id" object_id
        (set_param "type" type_id ∅))).

Definition build_request (params : gmap string string) : Request :=
  {| req_method := "GET";
     req_url := broker +:+ "/ngsi-ld/v1/entities/";
     req_headers := {[ "Link" := link_header ]};
     req_params := params |}.

Section Server.

(** The decoded JSON values, the [types] list of the catalog document
    ([data-space.json], read at start-up), and the store: the answer to a
    request, decoded, or [None] when the client or the decoder raises. *)
Context {Json : Type}.
Variable types_entries : list TypesEntry.
Variable store : Request -> option Json.

(** [any(token in text for token in requested_attributes)] *)
Definition any_token_in (requested_attributes : list string) (text : string)
  : bool :=
  existsb (fun token => Py.contains token text) requested_attributes.

(** Lines 31-35. *)
Definition requested_attributes_of (keywords : string) : list string :=
  map (fun attr => Py.lower (Py.strip attr))
    (List.filter (fun attr => negb (String.eqb (Py.strip attr) ""))
       (Py.split ","%char keywords)).

(** The loop over the attributes (lines 50-56): whether it reaches the
    [break]. *)
Fixpoint scan_attributes (requested_attributes : list string)
  (attributes : list AttributeEntry) : bool :=
  match attributes with
  | [] => false
  | attribute :: rest =>
      if any_token_in requested_attributes
           (Py.lower (attr_description attribute))
      then true
      else scan_attributes requested_attributes rest
  end.

(** Lines 46-48 and 53-55. *)
Definition add_match (type_name : string) (type_data : TypeData)
  (st : list (string * TypeData) * gset string)
  : list (string * TypeData) * gset string :=
  let '(matches, seen) := st in
  if decide (type_name ∈ seen) then st
  else (matches ++ [(type_name, type_data)], {[type_name]} ∪ seen).

(** One round of the loop over the items of an entry (lines 44-56). *)
Definition visit_type (requested_attributes : list string)
  (st : list (string * TypeData) * gset string)
  (item : string * TypeData) : list (string * TypeData) * gset string :=
  let '(type_name, type_data) := item in
  let type_description := Py.lower (td_description type_data) in
  if any_token_in requested_attributes type_description then
    add_match type_name type_data st
  else if scan_attributes requested_attributes (td_attributes type_data)
  then add_match type_name type_data st
  else st.

(** Lines 42-43: the entries in order, the items of each in order. *)
Definition visit_entries (requested_attributes : list string)
  (entries : list TypesEntry)
  (st : list (string * TypeData) * gset string)
  : list (string * TypeData) * gset string :=
  fold_left
    (fun st types_entry =>
       fold_left (visit_type requested_attributes) types_entry st)
    entries st.

Definition _get_types (keywords : option string)
  : list (string * TypeData) :=
  match keywords with
  | None => []
  | Some kw =>
      if String.eqb (Py.strip kw) "" then []
      else
        match requested_attributes_of kw with
        | [] => []
        | requested_attributes =>
            fst (visit_entries requested_attributes types_entries ([], ∅))
        end
  end.

Definition get_types (keywords : option string)
  : list (string * TypeData) :=
  _get_types keywords.

(** [_read]: the value returned and the requests sent to the store. *)
Definition _read (type_id object_id attributes : option string)
  (filters : option (list string)) : Result Json * list Request :=
  match read_query filters with
  | inl msg => (ErrorDict msg, [])
  | inr query =>
      let request :=
        build_request (build_params type_id object_id query attributes) in
      match store request with
      | Some objects => (Objects objects, [request])
      | None => (Raised, [request])
      end
  end.

(** [any(type_id in entry for entry in types_entries)] *)
Definition type_exists (type_id : string) : bool :=
  existsb
    (fun entry : TypesEntry =>
       existsb (fun item => String.eqb type_id (fst item)) entry)
    types_entries.

Definition conflicting_selectors : string :=
  "Provide only one of type_id or object_id.".

Definition unknown_type (type_id : string) : string :=
  "Unknown type_id '" +:+ type_id +:+ "'.".

Definition read (type_id object_id attributes : option string)
  (filters : option (list string)) : Result Json * list Request :=
  if nonblank type_id && nonblank object_id then
    (ErrorDict conflicting_selectors, [])
  else
    match type_id with
    | Some t =>
        if nonblank type_id && negb (type_exists t) then
          (ErrorDict (unknown_type t), [])
        else _read type_id object_id attributes filters
    | None => _read type_id object_id attributes filters
    end.

End Server.

(** ** The vocabulary of the specification *)

(** *** Strings *)

(** Every character of [s] satisfies [p]. *)
Fixpoint string_forall (p : ascii -> bool) (s : string) : bool :=
  match s with
  | EmptyString => true
  | String c s' => p c && string_forall p s'
  end.

(** Only white space. *)
Fixpoint all_space (s : string) : bool :=
  match s with
  | EmptyString => true
  | String c s' => Py.isspace c && all_space s'
  end.

(** No white space at either end. *)
Definition trimmed (s : string) : bool :=
  match first_char s with Some c => negb (Py.isspace c) | None => true end &&
  match last_char s with Some c => negb (Py.isspace c) | None => true end.

(** [t] is [s] without the white space at its two ends. *)
Definition is_trim_of (s t : string) : Prop :=
  exists w1 w2,
    s = w1 +:+ t +:+ w2 /\
    all_space w1 = true /\ all_space w2 = true /\ trimmed t = true.

(** The character [sep] does not occur in [s]. *)
Definition free_of (sep : ascii) (s : string) : bool :=
  string_forall (fun c => negb (Ascii.eqb c sep)) s.

(** The strings of [parts], in order, with the character [sep] between
    one and the next. *)
Fixpoint separated_by (sep : ascii) (parts : list string) : string :=
  match parts with
  | [] => ""
  | part :: rest =>
      match rest with
      | [] => part
      | _ :: _ => part +:+ String sep (separated_by sep rest)
      end
  end.

(** The capital letters of Latin-1 with their small letters: A to Z, and
    the accented capitals U+00C0 to U+00DE, the multiplication sign U+00D7
    not being a letter. *)
Definition letter_table : list (ascii * ascii) :=
  combine (list_ascii_of_string "ABCDEFGHIJKLMNOPQRSTUVWXYZ")
          (list_ascii_of_string "abcdefghijklmnopqrstuvwxyz")
  ++ map (fun p => (ascii_of_N (fst p), ascii_of_N (snd p)))
       [ (192, 224); (193, 225); (194, 226); (195, 227); (196, 228);
         (197, 229); (198, 230); (199, 231); (200, 232); (201, 233);
         (202, 234); (203, 235); (204, 236); (205, 237); (206, 238);
         (207, 239); (208, 240); (209, 241); (210, 242); (211, 243);
         (212, 244); (213, 245); (214, 246); (216, 248); (217, 249);
         (218, 250); (219, 251); (220, 252); (221, 253); (222, 254) ]%N.

(** A string in lower case: every capital letter replaced by its small
    letter, every other character kept. *)
Definition lower_case_char (c : ascii) : ascii :=
  match List.find (fun p => Ascii.eqb (fst p) c) letter_table with
  | Some p => snd p
  | None => c
  end.

Fixpoint lower_case (s : string) : string :=
  match s with
  | EmptyString => EmptyString
  | String c s' => String (lower_case_char c) (lower_case s')
  end.

Definition no_semicolon (s : string) : bool :=
  string_forall (fun c => negb (Ascii.eqb c ";"%char)) s.

(** [sub] occurs in [s]. *)
Definition occurs (sub s : string) : Prop :=
  exists l r, s = l +:+ sub +:+ r.

(** [l] and [r] surround the leftmost occurrence of [sub] in [s]. *)
Definition first_occurrence (sub s l r : string) : Prop :=
  s = l +:+ sub +:+ r /\
  forall l' r', s = l' +:+ sub +:+ r' -> String.length l <= String.length l'.

Definition is_prefix (p s : string) : Prop := exists v, s = p +:+ v.

Definition is_suffix (p s : string) : Prop := exists u, s = u +:+ p.

(** The ways to cut [s] in two. *)
Fixpoint splits (s : string) : list (string * string) :=
  (EmptyString, s)
  :: match s with
     | EmptyString => []
     | String c s' => map (fun '(p, q) => (String c p, q)) (splits s')
     end.

(** *** The normalizer *)

(** The operators in the priority order of section 4.3 of the
    specification. *)
Definition priority_order : list string :=
  ["=="; "!="; "<="; ">="; "<"; ">"; "contains"].

(** [op] is the first operator, in the priority order, that occurs in
    [s]. *)
Definition earliest_operator (op s : string) : Prop :=
  exists before after,
    priority_order = before ++ op :: after /\
    occurs op s /\
    Forall (fun o => ~ occurs o s) before.

Definition has_operator (s : string) : Prop :=
  exists op, In op priority_order /\ occurs op s.

(** The numeric pattern of the specification: an optional minus sign, one or
    more digits and, optionally, a dot followed by one or more digits. *)
Definition matches_numeric_pattern (s : string) : bool :=
  let s1 :=
    match s with
    | String c s' => if Ascii.eqb c "-"%char then s' else s
    | EmptyString => s
    end in
  match Py.span_digits s1 with
  | (0, _) => false
  | (_, EmptyString) => true
  | (_, String c r) =>
      Ascii.eqb c "."%char &&
      match Py.span_digits r with
      | (0, _) => false
      | (_, EmptyString) => true
      | (_, String _ _) => false
      end
  end.

(** The characters of the numeric pattern: digits, minus sign and dot. *)
Definition plain_char (c : ascii) : bool :=
  Py.is_digit c || Ascii.eqb c "-"%char || Ascii.eqb c "."%char.

(** Pre-quoted, in the words of the specification: the first and the last
    character are the same quote character. *)
Definition pre_quoted (s : string) : Prop :=
  exists q, is_quote q = true /\ first_char s = Some q /\ last_char s = Some q.

(** The value of a clause: the raw value as it is when [float] accepts it
    or when it is pre-quoted and has two characters at least, and the raw
    value between two double quotes otherwise. *)
Definition rendered_value (raw_value value : string) : Prop :=
  let literal :=
    is_number raw_value = true \/
    (2 <= String.length raw_value /\ pre_quoted raw_value) in
  (literal /\ value = raw_value) \/
  (~ literal /\ value = double_quote +:+ raw_value +:+ double_quote).

(** Section 4.3 of the specification, for one filter: split at the leftmost
    occurrence of the earliest operator, trim both sides, render attribute,
    operator and value without spaces around the operator. *)
Definition clause_of (filter_str clause : string) : Prop :=
  exists op l r attr raw_value value,
    earliest_operator op filter_str /\
    first_occurrence op filter_str l r /\
    is_trim_of l attr /\
    is_trim_of r raw_value /\
    rendered_value raw_value value /\
    clause = attr +:+ op +:+ value.

(** The filter is split at [==] and its trimmed left part ends with [=]:
    rendered without the spaces, that [=] and the operator form an earlier
    [==]. *)
Definition equals_before_operator (filter_str : string) : bool :=
  match scan_operators supported_operators filter_str with
  | Some (attr, op, _) =>
      String.eqb op "==" &&
      match last_char attr with
      | Some c => Ascii.eqb c "="%char
      | None => false
      end
  | None => false
  end.

(** *** The keyword resolver *)

(** The keywords of a [keywords] string: its comma-separated elements,
    trimmed and in lower case, the empty ones left out. *)
Definition keyword_of (keywords : option string) (k : string) : Prop :=
  exists kw elements a t,
    keywords = Some kw /\
    kw = separated_by ","%char elements /\
    Forall (fun e => free_of ","%char e = true) elements /\
    In a elements /\
    is_trim_of a t /\
    t <> "" /\
    k = lower_case t.

(** A type matches when a keyword occurs in its description in lower case
    or in the description, in lower case, of one of its attributes. *)
Definition type_matches (keywords : option string) (type_data : TypeData)
  : Prop :=
  exists k,
    keyword_of keywords k /\
    (occurs k (lower_case (td_description type_data)) \/
     exists a,
       In a (td_attributes type_data) /\
       occurs k (lower_case (attr_description a))).

(** The items of the catalog, in catalog order. *)
Definition catalog_items (types_entries : list TypesEntry)
  : list (string * TypeData) :=
  concat types_entries.

(** Whether the loop body of [_get_types] reaches one of its two
    [matches.append] sites for a type, the check on [seen] apart. *)
Definition type_hit (requested_attributes : list string)
  (type_data : TypeData) : bool :=
  any_token_in requested_attributes (Py.lower (td_description type_data))
  || scan_attributes requested_attributes (td_attributes type_data).

(** The items the loop of [_get_types] appends, given the names seen so
    far. *)
Fixpoint selected (requested_attributes : list string) (seen : gset string)
  (items : list (string * TypeData)) : list (string * TypeData) :=
  match items with
  | [] => []
  | (type_name, type_data) :: rest =>
      if type_hit requested_attributes type_data then
        if decide (type_name ∈ seen) then
          selected requested_attributes seen rest
        else
          (type_name, type_data)
          :: selected requested_attributes ({[type_name]} ∪ seen) rest
      else selected requested_attributes seen rest
  end.

(** *** The dispatcher *)

(** An input is supplied when it is given and not blank: one of its
    characters is not white space. *)
Definition supplied (x : option string) : Prop :=
  exists s, x = Some s /\ all_space s = false.

(** [type_id] is a key of one of the catalog's entries. *)
Definition type_in_catalog (types_entries : list TypesEntry)
  (type_id : string) : Prop :=
  exists entry type_data,
    In entry types_entries /\ In (type_id, type_data) entry.

(** The parameter [key] is sent exactly when its input is supplied, and
    then with the input as it was given. *)
Definition key_from (params : gmap string string) (key : string)
  (x : option string) : Prop :=
  forall v, params !! key = Some v <-> x = Some v /\ supplied x.

(** *** A catalog and a store for the worked examples *)

Definition example_types_entries : list TypesEntry :=
  [ [("thermometer",
      {| td_description := "A sensor that measures Temperature";
         td_attributes :=
           [ {| attr_name := "temperature";
                attr_description := "Degrees Celsius" |} ] |})];
    [("plug",
      {| td_description := "A smart plug";
         td_attributes :=
           [ {| attr_name := "consumption";
                attr_description := "Power drawn, in kW" |};
             {| attr_name := "state";
                attr_description := "On or off" |} ] |})];
    [("hvac_unit",
      {| td_description := "Heating and cooling unit";
         td_attributes :=
           [ {| attr_name := "setpoint";
                attr_description := "Target temperature" |};
             {| attr_name := "rh";
                attr_description := "Relative HUMIDITY in the room" |} ] |})] ].

(** The store answers every request with the same list. *)
Definition example_store (request : Request) : option (list string) :=
  Some ["urn:mcp:plug1"].

(** *** Arguments as the tools read them *)





(** White space or the comma that separates keywords. *)
Definition comma_or_space (c : ascii) : bool :=
  Py.isspace c || Ascii.eqb c ","%char.

Definition no_space (s : string) : bool :=
  string_forall (fun c => negb (Py.isspace c)) s.

(** *** [run_tests]

    The calls of [run_tests] in their order, with the requests they send and
    how the run ends; of the lines it prints, only the verdicts are kept. *)




Section Tests.

Context {Json : Type}.
Variable types_entries : list TypesEntry.
Variable store : Request -> option Json.




End Tests.


(** ** [client.py]

    The column [matches_expected] of a row of the benchmark (lines 48, 65
    and 84): [output_text] is [response.output_text], [None] when the model
    gave none, and [response] is the expected answer of the prompt as
    [str] gives it. *)
Definition matches_expected (output_text : option string) (response : string)
  : bool :=
  let expected_output := Py.strip response in
  let output_text :=
    Py.strip (match output_text with Some s => s | None => "" end) in
  String.eqb output_text expected_output.

(** ** Tactics *)

#[local] Arguments String.append !s1 s2 / : simpl nomatch.

(** A fact on one character is settled on each of the 256 characters. *)
Ltac each_char c :=
  destruct c as [[] [] [] [] [] [] [] []]; vm_compute; try done.

(** The seven cases of [In o supported_operators]. *)
Ltac operator_cases H :=
  simpl in H; repeat (destruct H as [<-|H]); [..|done].

(** ** Facts on strings *)

Lemma app_empty_r (s : string) : s +:+ "" = s.
Proof. induction s as [|c s IH]; simpl; [done | by rewrite IH]. Qed.

Lemma app_assoc_str (s1 s2 s3 : string) :
  (s1 +:+ s2) +:+ s3 = s1 +:+ s2 +:+ s3.
Proof. induction s1 as [|c s1 IH]; simpl; [done | by rewrite IH]. Qed.

Lemma app_length_str (s1 s2 : string) :
  String.length (s1 +:+ s2) = String.length s1 + String.length s2.
Proof. induction s1 as [|c s1 IH]; simpl; [done | by rewrite IH]. Qed.

Lemma app_inv_head_str (s t1 t2 : string) : s +:+ t1 = s +:+ t2 -> t1 = t2.
Proof. induction s as [|c s IH]; simpl; [done | intros [= H]; auto]. Qed.

Lemma length_zero_empty (s : string) : String.length s = 0 -> s = "".
Proof. by destruct s. Qed.

(** Two splittings of one string: the shorter left part is a prefix of the
    longer one. *)
Lemma app_eq_split (l1 r1 l2 r2 : string) :
  l1 +:+ r1 = l2 +:+ r2 ->
  String.length l1 <= String.length l2 ->
  exists m, l2 = l1 +:+ m /\ r1 = m +:+ r2.
Proof.
  revert l2. induction l1 as [|c l1 IH]; intros l2 H Hlen; simpl in *.
  - exists l2. done.
  - destruct l2 as [|d l2]; simpl in *; [lia |].
    injection H as -> H. destruct (IH l2 H) as (m & -> & ->); [lia |].
    by exists m.
Qed.

Lemma strip_prefix_spec (p s r : string) :
  Py.strip_prefix p s = Some r <-> s = p +:+ r.
Proof.
  revert s. induction p as [|a p IH]; intros s; simpl.
  - split; [by intros [= ->] | by intros ->].
  - destruct s as [|b s]; [done |].
    destruct (Ascii.eqb_spec a b) as [->|Hne].
    + rewrite IH. split; [by intros -> | by intros [= ->]].
    + split; [done | intros [= ? ?]; congruence].
Qed.

Lemma strip_prefix_app (p r : string) : Py.strip_prefix p (p +:+ r) = Some r.
Proof. by apply strip_prefix_spec. Qed.

Lemma contains_spec (sub s : string) :
  Py.contains sub s = true <-> occurs sub s.
Proof.
  induction s as [|c s IH]; simpl.
  - destruct (Py.strip_prefix sub "") as [r|] eqn:E.
    + apply strip_prefix_spec in E. split; [|done]. intros _. by exists "", r.
    + split; [done |]. intros (l & r & H).
      destruct l; simpl in H; [|done].
      apply strip_prefix_spec in H. congruence.
  - destruct (Py.strip_prefix sub (String c s)) as [r|] eqn:E.
    + apply strip_prefix_spec in E. split; [|done]. intros _. by exists "", r.
    + rewrite IH. split.
      * intros (l & r & ->). by exists (String c l), r.
      * intros (l & r & H). destruct l as [|d l]; simpl in H.
        -- apply strip_prefix_spec in H. congruence.
        -- injection H as -> ->. by exists l, r.
Qed.

Lemma contains_false (sub s : string) :
  Py.contains sub s = false <-> ~ occurs sub s.
Proof.
  by rewrite <- contains_spec, not_true_iff_false.
Qed.

Lemma partition_none (sep s : string) :
  Py.partition sep s = None -> Py.contains sep s = false.
Proof.
  induction s as [|e s IH]; simpl.
  - by destruct (Py.strip_prefix sep "").
  - destruct (Py.strip_prefix sep (String e s)); [done |].
    destruct (Py.partition sep s) as [[] |]; [done | auto].
Qed.

Lemma partition_spec (sep s l r : string) :
  Py.partition sep s = Some (l, r) <-> first_occurrence sep s l r.
Proof.
  revert l r. induction s as [|c s IH]; intros l r; simpl.
  - destruct (Py.strip_prefix sep "") as [r0|] eqn:E.
    + apply strip_prefix_spec in E. split.
      * intros [= <- <-]. split; [done | simpl; lia].
      * intros [H _]. destruct l; [|done]. simpl in H.
        rewrite E in H. apply app_inv_head_str in H. by subst.
    + split; [done |]. intros [H _]. destruct l; [|done].
      simpl in H. apply strip_prefix_spec in H. congruence.
  - destruct (Py.strip_prefix sep (String c s)) as [r0|] eqn:E.
    + apply strip_prefix_spec in E. split.
      * intros [= <- <-]. split; [done | simpl; lia].
      * intros [H Hmin]. specialize (Hmin "" r0 E). simpl in Hmin.
        destruct l; [|simpl in Hmin; lia]. simpl in H.
        rewrite E in H. apply app_inv_head_str in H. by subst.
    + destruct (Py.partition sep s) as [[l0 r1]|] eqn:P.
      * destruct (proj1 (IH l0 r1) eq_refl) as [-> Hmin]. split.
        -- intros [= <- <-]. split; [done |].
           intros l' r' H. destruct l' as [|d l']; simpl in H.
           ++ apply strip_prefix_spec in H. congruence.
           ++ injection H as -> H. apply Hmin in H. simpl. lia.
        -- intros [H Hmin']. destruct l as [|d l]; simpl in H.
           ++ apply strip_prefix_spec in H. congruence.
           ++ injection H as -> H.
              assert (first_occurrence sep (l0 +:+ sep +:+ r1) l r) as Hf.
              { split; [done |]. intros l' r' H'.
                specialize (Hmin' (String d l') r'). simpl in Hmin'.
                rewrite H' in Hmin'. specialize (Hmin' eq_refl). lia. }
              apply IH in Hf. by injection Hf as -> ->.
      * split; [done |]. intros [H _]. destruct l as [|d l]; simpl in H.
        -- apply strip_prefix_spec in H. congruence.
        -- injection H as -> H.
           assert (first_occurrence sep s l r) as Hf; [|apply IH in Hf; done].
           exfalso. apply partition_none, contains_false in P.
           apply P. by exists l, r.
Qed.

(** ** Facts on [strip] *)

Lemma lstrip_split (s : string) :
  exists w, s = w +:+ Py.lstrip s /\ all_space w = true.
Proof.
  induction s as [|c s (w & IH & Hw)]; simpl.
  - by exists "".
  - destruct (Py.isspace c) eqn:E.
    + exists (String c w). simpl. rewrite E, Hw. by rewrite <- IH.
    + by exists "".
Qed.

Lemma rstrip_split (s : string) :
  exists w, s = Py.rstrip s +:+ w /\ all_space w = true.
Proof.
  induction s as [|c s (w & IH & Hw)]; simpl.
  - by exists "".
  - destruct (Py.rstrip s) as [|d r] eqn:E.
    + destruct (Py.isspace c) eqn:Ec.
      * exists (String c w). simpl in *. rewrite Ec, Hw. by subst.
      * exists w. simpl in *. by subst.
    + exists w. simpl in *. split; [congruence | done].
Qed.

Lemma strip_split (s : string) :
  exists w1 w2,
    s = w1 +:+ Py.strip s +:+ w2 /\ all_space w1 = true /\ all_space w2 = true.
Proof.
  destruct (lstrip_split s) as (w1 & H1 & Hw1).
  destruct (rstrip_split (Py.lstrip s)) as (w2 & H2 & Hw2).
  exists w1, w2. unfold Py.strip. by rewrite <- H2, <- H1.
Qed.

Lemma lstrip_first (s : string) :
  match first_char (Py.lstrip s) with
  | Some c => Py.isspace c = false
  | None => True
  end.
Proof.
  induction s as [|c s IH]; simpl; [done |].
  destruct (Py.isspace c) eqn:E; [done | simpl; done].
Qed.

Lemma rstrip_last (s : string) :
  match last_char (Py.rstrip s) with
  | Some c => Py.isspace c = false
  | None => True
  end.
Proof.
  induction s as [|c s IH]; simpl; [done |].
  destruct (Py.rstrip s) as [|d r] eqn:E.
  - destruct (Py.isspace c) eqn:Ec; simpl; done.
  - simpl in *. done.
Qed.

Lemma rstrip_first (s : string) (c : ascii) :
  first_char s = Some c -> Py.isspace c = false ->
  first_char (Py.rstrip s) = Some c.
Proof.
  destruct s as [|d s]; simpl; [done |]. intros [= ->] Hc.
  destruct (Py.rstrip s); [by rewrite Hc | done].
Qed.

Lemma strip_trimmed (s : string) : trimmed (Py.strip s) = true.
Proof.
  unfold trimmed, Py.strip. apply andb_true_iff. split.
  - pose proof (lstrip_first s) as H.
    destruct (first_char (Py.lstrip s)) as [c|] eqn:E.
    + by rewrite (rstrip_first _ c E H), H.
    + destruct (Py.lstrip s); [done | simplify_eq/=].
  - pose proof (rstrip_last (Py.lstrip s)) as H.
    destruct (last_char _); [by rewrite H | done].
Qed.

Lemma lstrip_id (s : string) :
  match first_char s with Some c => negb (Py.isspace c) | None => true end = true ->
  Py.lstrip s = s.
Proof. destruct s as [|c s]; simpl; [done |]. by destruct (Py.isspace c). Qed.

Lemma rstrip_id (s : string) :
  match last_char s with Some c => negb (Py.isspace c) | None => true end = true ->
  Py.rstrip s = s.
Proof.
  induction s as [|c s IH]; simpl; [done |].
  destruct s as [|d s].
  - simpl. by destruct (Py.isspace c).
  - intros H. rewrite (IH H). done.
Qed.

Lemma strip_id (s : string) : trimmed s = true -> Py.strip s = s.
Proof.
  unfold trimmed, Py.strip. intros [H1 H2]%andb_true_iff.
  by rewrite (lstrip_id s H1), (rstrip_id s H2).
Qed.

Lemma strip_strip (s : string) : Py.strip (Py.strip s) = Py.strip s.
Proof. apply strip_id, strip_trimmed. Qed.

(** ** Trimming, stated without [strip] *)

Lemma all_space_app (s t : string) :
  all_space (s +:+ t) = all_space s && all_space t.
Proof.
  induction s as [|c s IH]; simpl; [done |]. by rewrite IH, andb_assoc.
Qed.

Lemma strip_empty_all_space (s : string) :
  Py.strip s = "" -> all_space s = true.
Proof.
  intros E. destruct (strip_split s) as (w1 & w2 & Hs & H1 & H2).
  rewrite Hs, E, !all_space_app, H1, H2. done.
Qed.

Lemma all_space_strip_empty (s : string) :
  all_space s = true -> Py.strip s = "".
Proof.
  intros H. unfold Py.strip.
  assert (Py.lstrip s = "") as ->; [|done].
  induction s as [|c s IH]; simpl in *; [done |].
  apply andb_true_iff in H as [-> H]. auto.
Qed.

Lemma lstrip_space (w : string) : all_space w = true -> Py.lstrip w = "".
Proof.
  induction w as [|c w IH]; simpl; [done |].
  intros [-> Hw]%andb_true_iff. auto.
Qed.

Lemma lstrip_pad_l (w s : string) :
  all_space w = true -> Py.lstrip (w +:+ s) = Py.lstrip s.
Proof.
  induction w as [|c w IH]; simpl; [done |].
  intros [-> Hw]%andb_true_iff. auto.
Qed.

Lemma lstrip_pad_r (s w : string) :
  Py.lstrip (s +:+ w)
  = if all_space s then Py.lstrip w else Py.lstrip s +:+ w.
Proof.
  induction s as [|c s IH]; simpl; [done |].
  by destruct (Py.isspace c).
Qed.

Lemma rstrip_pad_r (s w : string) :
  all_space w = true -> Py.rstrip (s +:+ w) = Py.rstrip s.
Proof.
  intros Hw. induction s as [|c s IH]; simpl.
  - clear -Hw. induction w as [|c w IH]; simpl; [done |].
    simpl in Hw. apply andb_true_iff in Hw as [-> Hw]. by rewrite IH.
  - by rewrite IH.
Qed.

Lemma strip_pad_l (w s : string) :
  all_space w = true -> Py.strip (w +:+ s) = Py.strip s.
Proof. intros H. unfold Py.strip. by rewrite lstrip_pad_l. Qed.

Lemma strip_pad_r (s w : string) :
  all_space w = true -> Py.strip (s +:+ w) = Py.strip s.
Proof.
  intros H. unfold Py.strip. rewrite lstrip_pad_r.
  destruct (all_space s) eqn:Es.
  - by rewrite (lstrip_space w H), (lstrip_space s Es).
  - by apply rstrip_pad_r.
Qed.

Lemma strip_is_trim (s : string) : is_trim_of s (Py.strip s).
Proof.
  destruct (strip_split s) as (w1 & w2 & Hs & H1 & H2).
  exists w1, w2. split_and!; try done. apply strip_trimmed.
Qed.

Lemma is_trim_of_strip (s t : string) : is_trim_of s t -> t = Py.strip s.
Proof.
  intros (w1 & w2 & -> & H1 & H2 & Ht).
  rewrite (strip_pad_l w1) by done. rewrite (strip_pad_r t w2) by done.
  by rewrite strip_id.
Qed.

Lemma strip_empty_iff (s : string) : Py.strip s = "" <-> all_space s = true.
Proof. split; [apply strip_empty_all_space | apply all_space_strip_empty]. Qed.

Lemma strip_nonempty_iff (s : string) :
  Py.strip s <> "" <-> all_space s = false.
Proof.
  rewrite strip_empty_iff. by destruct (all_space s).
Qed.

(** ** Lower case, read off the table of letters *)

Lemma lower_case_char_spec (c : ascii) : lower_case_char c = Py.lower_char c.
Proof. each_char c. Qed.

Lemma lower_case_spec (s : string) : lower_case s = Py.lower s.
Proof.
  induction s as [|c s IH]; simpl; [done |].
  by rewrite lower_case_char_spec, IH.
Qed.

(** ** Splitting and joining at a character *)

Lemma split_no_separator (sep : ascii) (s : string) :
  string_forall (fun c => negb (Ascii.eqb c sep)) s = true ->
  Py.split sep s = [s].
Proof.
  induction s as [|c s IH]; simpl; [done |].
  intros [Hc Hs]%andb_true_iff. apply negb_true_iff in Hc. rewrite Hc.
  by rewrite (IH Hs).
Qed.

Lemma split_nonempty (sep : ascii) (s : string) : Py.split sep s <> [].
Proof.
  induction s as [|c s IH]; simpl; [done |].
  destruct (Ascii.eqb c sep); [done |]. by destruct (Py.split sep s).
Qed.

Lemma split_parts_no_separator (sep : ascii) (s : string) :
  Forall (fun a => string_forall (fun c => negb (Ascii.eqb c sep)) a = true)
    (Py.split sep s).
Proof.
  induction s as [|c s IH]; simpl; [by repeat constructor |].
  destruct (Ascii.eqb c sep) eqn:Ec; [by constructor |].
  pose proof (split_nonempty sep s) as Hne.
  destruct (Py.split sep s) as [|h t]; [done |].
  apply Forall_cons in IH as [Hh Ht]. constructor; [|done].
  simpl. by rewrite Ec, Hh.
Qed.

Lemma split_app_separator (sep : ascii) (x y : string) :
  string_forall (fun c => negb (Ascii.eqb c sep)) x = true ->
  Py.split sep (x +:+ String sep y) = x :: Py.split sep y.
Proof.
  induction x as [|c x IH]; simpl.
  - by rewrite Ascii.eqb_refl.
  - intros [Hc Hx]%andb_true_iff. apply negb_true_iff in Hc.
    by rewrite Hc, (IH Hx).
Qed.

Lemma separated_by_join (sep : ascii) (parts : list string) :
  Py.join (String sep "") parts = separated_by sep parts.
Proof.
  unfold Py.join. induction parts as [|x rest IH]; simpl; [done |].
  destruct rest as [|y rest]; [done |]. by rewrite IH.
Qed.

Lemma separated_by_split (sep : ascii) (s : string) :
  separated_by sep (Py.split sep s) = s.
Proof.
  induction s as [|c s IH]; simpl; [done |].
  pose proof (split_nonempty sep s) as Hne.
  destruct (Ascii.eqb_spec c sep) as [->|Hc].
  - destruct (Py.split sep s) as [|h t]; [done |]. simpl in *. by rewrite IH.
  - destruct (Py.split sep s) as [|h t]; [done |].
    rewrite <- IH. by destruct t.
Qed.

Lemma split_separated_by (sep : ascii) (parts : list string) :
  parts <> [] ->
  Forall (fun e => free_of sep e = true) parts ->
  Py.split sep (separated_by sep parts) = parts.
Proof.
  intros Hne H. induction H as [|x rest Hx Hrest IH]; [done |].
  destruct rest as [|y rest].
  - simpl. by apply split_no_separator.
  - change (separated_by sep (x :: y :: rest))
      with (x +:+ String sep (separated_by sep (y :: rest))).
    rewrite split_app_separator by done. by rewrite IH.
Qed.

Lemma supported_operators_priority : supported_operators = priority_order.
Proof. reflexivity. Qed.

(** ** The value of a clause *)

Lemma is_quoted_spec (v : string) :
  is_quoted v = true <-> 2 <= String.length v /\ pre_quoted v.
Proof.
  unfold is_quoted, pre_quoted. rewrite andb_true_iff, Nat.leb_le.
  apply and_iff_compat_l.
  destruct (first_char v) as [a|], (last_char v) as [b|];
    try (split; [done | by intros (q & _ & ? & ?)]).
  rewrite andb_true_iff, Ascii.eqb_eq. split.
  - intros [-> Hq]. by exists b.
  - by intros (q & Hq & [= ->] & [= ->]).
Qed.

Lemma quote_value_cases (v : string) :
  quote_value v
  = if is_number v || is_quoted v then v
    else double_quote +:+ v +:+ double_quote.
Proof. unfold quote_value. by destruct (is_number v), (is_quoted v). Qed.

Lemma rendered_value_spec (raw value : string) :
  rendered_value raw value <-> value = quote_value raw.
Proof.
  unfold rendered_value. cbv zeta.
  rewrite quote_value_cases, <- is_quoted_spec, <- orb_true_iff.
  destruct (is_number raw || is_quoted raw).
  - split; [|intros ->; by left].
    intros [[_ ->]|[H _]]; [done | by destruct H].
  - split; [|intros ->; right; by split].
    by intros [[H _]|[_ ->]].
Qed.

(** ** The loop over the operators *)

Lemma scan_operators_some (operators : list string) (f attr op raw : string) :
  scan_operators operators f = Some (attr, op, raw) ->
  exists before after l r,
    operators = before ++ op :: after /\
    Forall (fun o => ~ occurs o f) before /\
    occurs op f /\
    first_occurrence op f l r /\
    attr = Py.strip l /\ raw = Py.strip r.
Proof.
  induction operators as [|o rest IH]; simpl; [done |].
  destruct (Py.contains o f) eqn:E.
  - unfold Py.split1. destruct (Py.partition o f) as [[l r]|] eqn:P; [|done].
    intros [= <- <- <-]. exists [], rest, l, r. split_and!; try done.
    + by apply contains_spec.
    + by apply partition_spec.
  - intros H. destruct (IH H) as (before & after & l & r & -> & Hb & ?).
    exists (o :: before), after, l, r. split_and!; try done.
    + constructor; [by apply contains_false | done].
    + tauto.
    + tauto.
    + tauto.
    + tauto.
Qed.

Lemma scan_operators_none (operators : list string) (f : string) :
  scan_operators operators f = None ->
  Forall (fun o => ~ occurs o f) operators.
Proof.
  induction operators as [|o rest IH]; simpl; [done |].
  destruct (Py.contains o f) eqn:E.
  - unfold Py.split1. destruct (Py.partition o f) as [[l r]|] eqn:P; [done |].
    apply partition_none in P. congruence.
  - intros H. constructor; [by apply contains_false | auto].
Qed.

Lemma supported_operator_nonempty (op : string) :
  In op supported_operators -> op <> "".
Proof. simpl. intros H ->. intuition discriminate. Qed.

Lemma normalize_filter_inr (f clause : string) :
  normalize_filter f = inr clause -> clause_of f clause.
Proof.
  unfold normalize_filter.
  destruct (scan_operators supported_operators f) as [[[attr op] raw]|] eqn:E;
    [|done].
  destruct (String.eqb op "") eqn:Eop; [done |]. intros [= <-].
  apply scan_operators_some in E
    as (before & after & l & r & Hops & Hb & Ho & Hf & -> & ->).
  exists op, l, r, (Py.strip l), (Py.strip r), (quote_value (Py.strip r)).
  split_and!; try done.
  - exists before, after. by rewrite <- supported_operators_priority.
  - apply strip_is_trim.
  - apply strip_is_trim.
  - by apply rendered_value_spec.
Qed.

Lemma normalize_filter_inl (f msg : string) :
  normalize_filter f = inl msg -> msg = invalid_filter f /\ ~ has_operator f.
Proof.
  unfold normalize_filter.
  destruct (scan_operators supported_operators f) as [[[attr op] raw]|] eqn:E.
  - destruct (String.eqb_spec op "") as [->|]; [|done]. intros _.
    apply scan_operators_some in E as (before & after & _ & _ & Hops & _).
    exfalso. apply (supported_operator_nonempty ""); [|done].
    rewrite Hops. apply in_elt.
  - intros [= <-]. split; [done |]. intros (op & Hin & Ho).
    apply scan_operators_none in E. rewrite Forall_forall in E.
    by apply (E op); [apply list_elem_of_In |].
Qed.

Lemma normalize_filter_has_operator (f : string) :
  has_operator f -> exists clause, normalize_filter f = inr clause.
Proof.
  intros H. destruct (normalize_filter f) as [msg|clause] eqn:E; [|eauto].
  by apply normalize_filter_inl in E as [_ []].
Qed.

(** ** The loop over the filters *)

Lemma normalize_loop_ok (filters acc : list string) :
  Forall has_operator filters ->
  exists clauses,
    normalize_loop filters acc = inr (acc ++ clauses) /\
    Forall2 clause_of filters clauses.
Proof.
  intros H. revert acc. induction H as [|f rest Hf _ IH]; intros acc; simpl.
  - exists []. by rewrite app_nil_r.
  - destruct (normalize_filter_has_operator f Hf) as [clause E]. rewrite E.
    destruct (IH (acc ++ [clause])) as (clauses & -> & HF).
    exists (clause :: clauses). rewrite <- app_assoc. split; [done |].
    constructor; [by apply normalize_filter_inr | done].
Qed.

Lemma normalize_loop_error (filters acc : list string) (msg : string) :
  normalize_loop filters acc = inl msg ->
  exists good f rest,
    filters = good ++ f :: rest /\
    Forall has_operator good /\
    ~ has_operator f /\
    msg = invalid_filter f.
Proof.
  revert acc. induction filters as [|f rest IH]; intros acc; simpl; [done |].
  destruct (normalize_filter f) as [m|clause] eqn:E.
  - intros [= <-]. apply normalize_filter_inl in E as [-> Hno].
    by exists [], f, rest.
  - intros H. destruct (IH _ H) as (good & f' & rest' & -> & Hg & Hno & ->).
    exists (f :: good), f', rest'. split_and!; try done.
    constructor; [|done]. apply normalize_filter_inr in E.
    destruct E as (op & l & r & ? & ? & ? & (before & after & Hops & Ho & _) & _).
    exists op. split; [|done]. rewrite Hops. apply in_elt.
Qed.

Lemma normalize_loop_bad (filters acc : list string) :
  ~ Forall has_operator filters ->
  exists msg, normalize_loop filters acc = inl msg.
Proof.
  intros H. destruct (normalize_loop filters acc) as [msg|cs] eqn:E; [eauto |].
  exfalso. apply H. clear H. revert acc cs E.
  induction filters as [|f rest IH]; intros acc cs; simpl; [done |].
  destruct (normalize_filter f) as [m|clause] eqn:Ef; [done |]. intros H.
  constructor; [|eauto]. apply normalize_filter_inr in Ef.
  destruct Ef as (op & l & r & ? & ? & ? & (before & after & Hops & Ho & _) & _).
  exists op. split; [|done]. rewrite Hops. apply in_elt.
Qed.

(** ** The normalizer *)

Lemma normalize_ok (filters : list string) :
  Forall has_operator filters ->
  exists clauses,
    normalize filters = inr (Py.join ";" clauses) /\
    Forall2 clause_of filters clauses.
Proof.
  intros H. destruct (normalize_loop_ok filters [] H) as (clauses & E & HF).
  exists clauses. unfold normalize. by rewrite E.
Qed.

Lemma has_operator_intro (f : string) :
  existsb (fun op => Py.contains op f) supported_operators = true ->
  has_operator f.
Proof.
  intros (op & Hin & Hc)%existsb_exists. exists op.
  split; [done | by apply contains_spec].
Qed.

(** C1. For every list of filter strings that each contain an operator of
    the priority order [==], [!=], [<=], [>=], [<], [>], [contains], the
    normalizer returns the clauses, in input order, with a [;] between one
    and the next, the clause of a filter being its left part without the
    white space at its ends, the operator and the (quoted where needed)
    right part without the white space at its ends, the filter being split
    at the leftmost occurrence of the first operator of the priority order
    that occurs in it. [_read] uses that string as its query whenever the
    list is not empty. *)
Theorem normalize_splits_renders_joins (filters : list string) :
  Forall has_operator filters ->
  exists clauses,
    normalize filters = inr (separated_by ";"%char clauses) /\
    Forall2 clause_of filters clauses /\
    (filters <> [] ->
     read_query (Some filters)
     = inr (Some (separated_by ";"%char clauses))).
Proof.
  intros H. destruct (normalize_ok filters H) as (clauses & E & HF).
  rewrite separated_by_join in E.
  exists clauses. split_and!; try done.
  intros Hne. unfold read_query. destruct filters; [done |]. by rewrite E.
Qed.

Lemma normalize_error (filters : list string) :
  Exists (fun f => ~ has_operator f) filters ->
  exists good f rest,
    filters = good ++ f :: rest /\
    Forall has_operator good /\
    ~ has_operator f /\
    normalize filters = inl (invalid_filter f).
Proof.
  intros H.
  destruct (normalize_loop filters []) as [msg|cs] eqn:E.
  - destruct (normalize_loop_error _ _ _ E) as (good & f & rest & ? & ? & ? & ->).
    exists good, f, rest. unfold normalize. by rewrite E.
  - exfalso. revert E. generalize (@nil string). revert cs.
    induction H as [f rest Hf|f rest _ IH]; intros cs acc; simpl.
    + destruct (normalize_filter f) as [m|clause] eqn:Ef; [done |].
      apply normalize_filter_inr in Ef.
      destruct Ef as (op & l & r & ? & ? & ? & (before & after & Hops & Ho & _) & _).
      exfalso. apply Hf. exists op. split; [|done]. rewrite Hops. apply in_elt.
    + destruct (normalize_filter f); [done | eauto].
Qed.

(** ** The dispatcher *)

Lemma nonblank_supplied (x : option string) :
  nonblank x = true <-> supplied x.
Proof.
  unfold supplied. destruct x as [s|]; simpl.
  - rewrite negb_true_iff, String.eqb_neq, strip_nonempty_iff. split.
    + intros H. by exists s.
    + by intros (s' & [= <-] & H).
  - split; [done | by intros (s' & ? & _)].
Qed.

Lemma nonblank_not_supplied (x : option string) :
  nonblank x = false <-> ~ supplied x.
Proof. by rewrite <- nonblank_supplied, not_true_iff_false. Qed.

Lemma supplied_nonempty (v : string) : supplied (Some v) -> v <> "".
Proof. by intros (s & [= <-] & H) ->. Qed.

Lemma lookup_set_param (key k : string) (x : option string)
  (params : gmap string string) :
  set_param key x params !! k
  = if decide (key = k) then (if nonblank x then x else params !! k)
    else params !! k.
Proof.
  unfold set_param. destruct x as [v|]; [|by case_decide].
  destruct (nonblank (Some v)); [apply lookup_insert | by case_decide].
Qed.

Lemma lookup_build_params (t o q a : option string) (k : string) :
  build_params t o q a !! k
  = if decide (k = "attrs") then (if nonblank a then a else None)
    else if decide (k = "q") then (if nonblank q then q else None)
    else if decide (k = "id") then (if nonblank o then o else None)
    else if decide (k = "type") then (if nonblank t then t else None)
    else None.
Proof.
  unfold build_params. rewrite !lookup_set_param, lookup_empty.
  repeat case_decide; simplify_eq; done.
Qed.

Lemma key_from_lookup (params : gmap string string) (key : string)
  (x : option string) :
  params !! key = (if nonblank x then x else None) -> key_from params key x.
Proof.
  intros E v. rewrite E. destruct (nonblank x) eqn:Hx.
  - apply nonblank_supplied in Hx. tauto.
  - apply nonblank_not_supplied in Hx. split; [done | tauto].
Qed.

Lemma build_params_keys (t o q a : option string) :
  let params := build_params t o q a in
  key_from params "type" t /\ key_from params "id" o /\
  key_from params "q" q /\ key_from params "attrs" a /\
  (forall k v,
     params !! k = Some v -> v <> "" /\ In k ["type"; "id"; "q"; "attrs"]).
Proof.
  simpl. split_and!; try (apply key_from_lookup; by rewrite lookup_build_params).
  intros k v. rewrite lookup_build_params.
  assert (forall x, (if nonblank x then x else None) = Some v -> v <> "") as Hv.
  { intros x. destruct (nonblank x) eqn:Hx; [|done]. intros ->.
    by apply supplied_nonempty, nonblank_supplied. }
  repeat case_decide; subst; simpl; intros Hk; try done; split; eauto.
Qed.

Lemma type_exists_spec (types_entries : list TypesEntry) (type_id : string) :
  type_exists types_entries type_id = true
  <-> type_in_catalog types_entries type_id.
Proof.
  unfold type_exists, type_in_catalog. rewrite existsb_exists. split.
  - intros (entry & Hin & ([name td] & Hi & ->%String.eqb_eq)%existsb_exists).
    by exists entry, td.
  - intros (entry & td & Hin & Hi). exists entry. split; [done |].
    apply existsb_exists. exists (type_id, td). split; [done |].
    apply String.eqb_refl.
Qed.

Lemma read_query_error (filters : option (list string)) (msg : string) :
  read_query filters = inl msg ->
  exists fs good f rest,
    filters = Some fs /\ fs = good ++ f :: rest /\
    Forall has_operator good /\ ~ has_operator f /\ msg = invalid_filter f.
Proof.
  unfold read_query, normalize. destruct filters as [[|f0 fs]|]; try done.
  destruct (normalize_loop (f0 :: fs) []) as [m|cs] eqn:E; [|done].
  intros [= <-].
  destruct (normalize_loop_error _ _ _ E) as (good & f & rest & ? & ? & ? & ?).
  by exists (f0 :: fs), good, f, rest.
Qed.

Section Dispatcher.

Context {Json : Type}.
Variable types_entries : list TypesEntry.
Variable store : Request -> option Json.

Lemma read_delegates (t o a : option string) (f : option (list string)) :
  ~ (supplied t /\ supplied o) ->
  (forall s, t = Some s -> supplied t -> type_in_catalog types_entries s) ->
  read types_entries store t o a f = _read store t o a f.
Proof.
  intros Hc Ht. unfold read.
  destruct (nonblank t) eqn:Et, (nonblank o) eqn:Eo; simpl;
    try (exfalso; apply Hc; split; by apply nonblank_supplied);
    destruct t as [s|]; try done.
  apply nonblank_supplied in Et.
  by rewrite (proj2 (type_exists_spec _ _) (Ht s eq_refl Et)).
Qed.

Lemma _read_sends (t o a : option string) (f : option (list string))
  (query : option string) :
  read_query f = inr query ->
  snd (_read store t o a f) = [build_request (build_params t o query a)].
Proof. unfold _read. intros ->. by destruct (store _). Qed.

(** C3. When some filter of the list has no supported operator, the
    normalizer fails with the error message that quotes the first such
    filter, whatever stands before or after it in the list; [_read]
    returns that error without a request to the store, and [read], when
    it accepts the selectors, returns what [_read] returned. *)
Theorem invalid_filter_fails_whole_batch (filters : list string) :
  Exists (fun f => ~ has_operator f) filters ->
  exists good f rest,
    filters = good ++ f :: rest /\
    Forall has_operator good /\
    ~ has_operator f /\
    normalize filters = inl (invalid_filter f) /\
    (forall t o a,
       _read store t o a (Some filters) = (ErrorDict (invalid_filter f), [])) /\
    (forall t o a,
       ~ (supplied t /\ supplied o) ->
       (forall s, t = Some s -> supplied t -> type_in_catalog types_entries s) ->
       read types_entries store t o a (Some filters)
       = (ErrorDict (invalid_filter f), [])).
Proof.
  intros H. destruct (normalize_error filters H)
    as (good & f & rest & Hf & Hg & Hno & E).
  exists good, f, rest. split_and!; try done.
  - intros t o a. unfold _read, read_query. rewrite E.
    destruct filters; [by destruct good | done].
  - intros t o a Hc Ht. rewrite read_delegates by done.
    unfold _read, read_query. rewrite E.
    destruct filters; [by destruct good | done].
Qed.

Lemma read_conflict (t o a : option string) (f : option (list string)) :
  supplied t -> supplied o ->
  read types_entries store t o a f = (ErrorDict conflicting_selectors, []).
Proof.
  intros Ht%nonblank_supplied Ho%nonblank_supplied.
  unfold read. by rewrite Ht, Ho.
Qed.

(** C5. When both selectors are supplied, [read] returns the
    conflicting-selectors error and sends nothing to the store. *)
Theorem read_conflicting_selectors (t o a : option string)
  (f : option (list string)) :
  supplied t -> supplied o ->
  read types_entries store t o a f = (ErrorDict conflicting_selectors, []).
Proof. apply read_conflict. Qed.

(** C6, in the form the code satisfies. When [type_id] is supplied and
    names no type of the catalog, and [object_id] is not supplied, [read]
    returns the unknown-type error that quotes the identifier, and sends
    nothing to the store. *)
Theorem read_unknown_type (s : string) (o a : option string)
  (f : option (list string)) :
  supplied (Some s) ->
  ~ type_in_catalog types_entries s ->
  ~ supplied o ->
  read types_entries store (Some s) o a f = (ErrorDict (unknown_type s), []).
Proof.
  intros Ht%nonblank_supplied Hs Ho%nonblank_not_supplied.
  unfold read. rewrite Ht, Ho. simpl.
  destruct (type_exists types_entries s) eqn:E; [|done].
  by apply type_exists_spec in E.
Qed.

(** C10, in the form the code satisfies. [read] returns the
    conflicting-selectors error exactly when both selectors are supplied.
    With neither selector supplied it hands the call to [_read], and when
    the filters are absent or all contain a supported operator, one request
    is sent, with neither the key [type] nor the key [id]. *)
Theorem read_zero_selectors (t o a : option string)
  (f : option (list string)) :
  (read types_entries store t o a f = (ErrorDict conflicting_selectors, [])
   <-> supplied t /\ supplied o) /\
  (~ supplied t -> ~ supplied o ->
   read types_entries store t o a f = _read store t o a f /\
   forall query,
     read_query f = inr query ->
     exists params,
       snd (read types_entries store t o a f) = [build_request params] /\
       params !! "type" = None /\ params !! "id" = None).
Proof.
  split.
  - split; [|by intros []; apply read_conflict].
    unfold read. destruct (nonblank t) eqn:Et, (nonblank o) eqn:Eo; simpl;
      try (intros _; split; by apply nonblank_supplied);
      (destruct t as [s|];
       [destruct (type_exists types_entries s); simpl; try done |]);
      unfold _read;
      destruct (read_query f) as [msg|query] eqn:Eq;
      try (destruct (store _); done);
      intros [= ->];
      apply read_query_error in Eq as (? & ? & g & ? & _ & _ & _ & _ & Hg);
      done.
  - intros Ht Ho.
    assert (read types_entries store t o a f = _read store t o a f) as E.
    { apply read_delegates; [tauto | done]. }
    split; [done |]. intros query Hq. rewrite E, (_read_sends _ _ _ _ _ Hq).
    exists (build_params t o query a). split; [done |].
    apply nonblank_not_supplied in Ht, Ho.
    rewrite !lookup_build_params, Ht, Ho. done.
Qed.

End Dispatcher.

(** ** The classification of values *)

Lemma plain_char_ascii (c : ascii) :
  plain_char c = true ->
  (Py.code c <? 128)%N = true /\ Py.c_isspace c = false /\
  Ascii.eqb c "_"%char = false.
Proof. each_char c. Qed.

Lemma plain_is_ascii (s : string) :
  string_forall plain_char s = true -> Py.is_ascii s = true.
Proof.
  induction s as [|c s IH]; simpl; [done |].
  intros [Hc Hs]%andb_true_iff. apply plain_char_ascii in Hc as (-> & _).
  auto.
Qed.

Lemma plain_no_underscore (s : string) :
  string_forall plain_char s = true -> Py.has_underscore s = false.
Proof.
  induction s as [|c s IH]; simpl; [done |].
  intros [Hc Hs]%andb_true_iff. apply plain_char_ascii in Hc as (_ & _ & ->).
  auto.
Qed.

Lemma plain_c_lstrip (s : string) :
  string_forall plain_char s = true -> Py.c_lstrip s = s.
Proof.
  destruct s as [|c s]; simpl; [done |].
  intros [Hc Hs]%andb_true_iff. by apply plain_char_ascii in Hc as (_ & -> & _).
Qed.

Lemma plain_c_rstrip (s : string) :
  string_forall plain_char s = true -> Py.c_rstrip s = s.
Proof.
  induction s as [|c s IH]; simpl; [done |].
  intros [Hc Hs]%andb_true_iff. rewrite (IH Hs).
  apply plain_char_ascii in Hc as (_ & -> & _). by destruct s.
Qed.

Lemma plain_float_ok (s : string) :
  string_forall plain_char s = true ->
  Py.float_ok s = Py.float_from_string_inner s.
Proof.
  intros H. unfold Py.float_ok, Py.transform_decimal_and_space.
  rewrite (plain_is_ascii s H), (plain_c_lstrip s H), (plain_c_rstrip s H).
  by rewrite (plain_no_underscore s H).
Qed.

Lemma span_digits_plain (s r : string) (n : nat) :
  Py.span_digits s = (n, r) ->
  string_forall plain_char r = true ->
  string_forall plain_char s = true.
Proof.
  revert n. induction s as [|c s IH]; intros n; simpl.
  - by intros [= <- <-].
  - destruct (Py.is_digit c) eqn:E.
    + destruct (Py.span_digits s) as [m r'] eqn:Es. intros [= <- <-] Hr.
      unfold plain_char. rewrite E. simpl. by apply (IH m).
    + by intros [= <- <-].
Qed.

Lemma span_digits_first (c : ascii) (s r : string) (n : nat) :
  Py.span_digits (String c s) = (S n, r) -> Py.is_digit c = true.
Proof. simpl. by destruct (Py.is_digit c). Qed.

Lemma digit_no_sign (c : ascii) :
  Py.is_digit c = true ->
  Ascii.eqb c "+"%char = false /\ Ascii.eqb c "-"%char = false.
Proof. each_char c. Qed.

(** What is left of a string that matches the numeric pattern once the
    minus sign is gone: digits, then nothing or a dot and digits. *)
Lemma matches_numeric_pattern_shape (s : string) :
  matches_numeric_pattern s = true ->
  exists n r,
    Py.span_digits (Py.skip_sign s) = (S n, r) /\
    string_forall plain_char s = true /\
    (r = "" \/ exists m r', r = String "."%char r' /\
                           Py.span_digits r' = (S m, "")).
Proof.
  unfold matches_numeric_pattern.
  set (s1 := match s with
             | String c s' => if Ascii.eqb c "-"%char then s' else s
             | EmptyString => s
             end).
  destruct (Py.span_digits s1) as [[|n] r] eqn:E1; [done |]. intros H.
  assert ((r = "" \/ exists m r', r = String "."%char r' /\
                                  Py.span_digits r' = (S m, "")) /\
          string_forall plain_char r = true) as [Hr Hp].
  { destruct r as [|c r]; [by split; [left |] |].
    apply andb_true_iff in H as [->%Ascii.eqb_eq H].
    destruct (Py.span_digits r) as [[|m] [|]] eqn:E2; try done.
    split; [right; by exists m, r |].
    simpl. by rewrite (span_digits_plain _ _ _ E2). }
  pose proof (span_digits_plain _ _ _ E1 Hp) as Hp1.
  exists n, r. destruct s as [|c s]; [done |]. unfold Py.skip_sign.
  subst s1. destruct (Ascii.eqb_spec c "-"%char) as [->|Hc].
  - by rewrite orb_true_r.
  - by destruct (digit_no_sign c (span_digits_first _ _ _ _ E1)) as [-> _].
Qed.

Lemma matches_numeric_pattern_is_number (v : string) :
  matches_numeric_pattern v = true -> is_number v = true.
Proof.
  intros (n & r & E & Hp & Hr)%matches_numeric_pattern_shape.
  unfold is_number. rewrite (plain_float_ok v Hp).
  unfold Py.float_from_string_inner, Py.strtod. rewrite E.
  destruct Hr as [->|(m & r' & -> & E')]; [done |].
  rewrite Ascii.eqb_refl, E'. done.
Qed.

Lemma first_char_app (c : ascii) (s t : string) :
  first_char (String c s +:+ t) = Some c.
Proof. done. Qed.

Lemma last_char_app (s : string) (c : ascii) :
  last_char (s +:+ String c "") = Some c.
Proof.
  induction s as [|d s IH]; simpl; [done |].
  rewrite IH. by destruct s.
Qed.

Lemma is_quoted_wrapped (q : ascii) (inner : string) :
  is_quote q = true -> is_quoted (String q (inner +:+ String q "")) = true.
Proof.
  intros Hq. apply is_quoted_spec. split.
  - simpl. rewrite app_length_str. simpl. lia.
  - exists q. split_and!; try done.
    apply (last_char_app (String q inner) q).
Qed.

Lemma quote_value_number (v : string) :
  is_number v = true -> quote_value v = v.
Proof. intros H. by rewrite quote_value_cases, H. Qed.

Lemma quote_value_quoted (v : string) :
  is_quoted v = true -> quote_value v = v.
Proof. intros H. by rewrite quote_value_cases, H, orb_true_r. Qed.

(** C2, in the form the code satisfies. A value that [float] accepts
    passes unchanged, and every value that matches the numeric pattern is
    one; a value of two or more characters whose first and last character
    are the same quote character passes unchanged; every other value is
    wrapped in double quotes. *)
Theorem quote_value_rule (v : string) :
  (matches_numeric_pattern v = true -> is_number v = true) /\
  (is_number v = true -> quote_value v = v) /\
  (2 <= String.length v -> pre_quoted v -> quote_value v = v) /\
  (is_number v = false -> ~ (2 <= String.length v /\ pre_quoted v) ->
   quote_value v = double_quote +:+ v +:+ double_quote).
Proof.
  split_and!.
  - apply matches_numeric_pattern_is_number.
  - apply quote_value_number.
  - intros H1 H2. by apply quote_value_quoted, is_quoted_spec.
  - intros Hn H. rewrite quote_value_cases, Hn.
    destruct (is_quoted v) eqn:E; [|done]. by apply is_quoted_spec in E.
Qed.

(** C9, in the form the code satisfies. A value of two or more characters
    whose first and last character are the same quote character passes
    unchanged, whatever stands between the two. *)
Theorem quoted_value_preserved (v : string) :
  2 <= String.length v -> pre_quoted v ->
  quote_value v = v /\
  forall q inner,
    is_quote q = true ->
    quote_value (String q (inner +:+ String q ""))
    = String q (inner +:+ String q "").
Proof.
  intros H1 H2. split.
  - by apply quote_value_quoted, is_quoted_spec.
  - intros q inner Hq. by apply quote_value_quoted, is_quoted_wrapped.
Qed.

(** ** The keyword resolver *)

Lemma space_no_comma (c : ascii) :
  Py.isspace c = true -> negb (Ascii.eqb c ","%char) = true.
Proof. each_char c. Qed.

Lemma blank_no_requested_attributes (kw : string) :
  Py.strip kw = "" -> requested_attributes_of kw = [].
Proof.
  intros E. unfold requested_attributes_of.
  rewrite split_no_separator; [simpl; by rewrite E |].
  apply strip_empty_all_space in E. revert E.
  induction kw as [|c kw IH]; simpl; [done |].
  intros [Hc Hs]%andb_true_iff. by rewrite (space_no_comma c Hc), IH.
Qed.

Lemma keyword_of_requested (kw k : string) :
  keyword_of (Some kw) k <-> In k (requested_attributes_of kw).
Proof.
  unfold keyword_of, requested_attributes_of. rewrite in_map_iff. split.
  - intros (kw' & elements & a & t & [= <-] & -> & Hfree & Ha & Ht & Hne & ->).
    apply is_trim_of_strip in Ht as ->.
    exists a. split; [by rewrite lower_case_spec |].
    apply filter_In. split.
    + rewrite split_separated_by; [done | by intros -> | done].
    + by apply negb_true_iff, String.eqb_neq.
  - intros (a & <- & [Ha Hne]%filter_In).
    exists kw, (Py.split ","%char kw), a, (Py.strip a). split_and!; try done.
    + by rewrite separated_by_split.
    + apply split_parts_no_separator.
    + apply strip_is_trim.
    + by apply String.eqb_neq, negb_true_iff.
    + by rewrite lower_case_spec.
Qed.

Lemma any_token_in_spec (requested : list string) (text : string) :
  any_token_in requested text = true
  <-> exists k, In k requested /\ occurs k text.
Proof.
  unfold any_token_in. rewrite existsb_exists.
  by setoid_rewrite contains_spec.
Qed.

Lemma scan_attributes_spec (requested : list string)
  (attributes : list AttributeEntry) :
  scan_attributes requested attributes = true
  <-> exists a,
        In a attributes /\
        any_token_in requested (Py.lower (attr_description a)) = true.
Proof.
  induction attributes as [|a rest IH]; simpl.
  - split; [done | by intros (? & [] & _)].
  - destruct (any_token_in requested (Py.lower (attr_description a))) eqn:E.
    + split; [|done]. intros _. exists a. by split; [left |].
    + rewrite IH. split.
      * intros (b & Hb & Ht). exists b. by split; [right |].
      * intros (b & [<-|Hb] & Ht); [congruence |]. by exists b.
Qed.

Lemma type_hit_spec (kw : string) (type_data : TypeData) :
  type_hit (requested_attributes_of kw) type_data = true
  <-> type_matches (Some kw) type_data.
Proof.
  unfold type_hit, type_matches. rewrite lower_case_spec.
  setoid_rewrite lower_case_spec.
  rewrite orb_true_iff, any_token_in_spec, scan_attributes_spec. split.
  - intros [(k & Hk & Ho)|(a & Ha & (k & Hk & Ho)%any_token_in_spec)];
      exists k; (split; [by apply keyword_of_requested |]); eauto.
  - intros (k & Hk%keyword_of_requested & [Ho|(a & Ha & Ho)]).
    + left. eauto.
    + right. exists a. split; [done |]. apply any_token_in_spec. eauto.
Qed.

Lemma type_hit_no_keyword (type_data : TypeData) :
  type_hit [] type_data = false.
Proof.
  unfold type_hit. simpl. by induction (td_attributes type_data).
Qed.

Lemma selected_no_keyword (seen : gset string)
  (items : list (string * TypeData)) :
  selected [] seen items = [].
Proof.
  induction items as [|[n td] rest IH]; simpl; [done |].
  by rewrite type_hit_no_keyword.
Qed.

Lemma fold_visit_type (requested : list string)
  (items matches : list (string * TypeData)) (seen : gset string) :
  fst (fold_left (visit_type requested) items (matches, seen))
  = matches ++ selected requested seen items.
Proof.
  revert matches seen.
  induction items as [|[n td] rest IH]; intros matches seen; simpl.
  - by rewrite app_nil_r.
  - unfold type_hit.
    destruct (any_token_in requested (Py.lower (td_description td))); simpl;
      [|destruct (scan_attributes requested (td_attributes td))];
      try apply IH;
      (case_decide; [apply IH | rewrite IH, <- app_assoc; done]).
Qed.

Lemma visit_entries_concat (requested : list string)
  (entries : list TypesEntry) (st : list (string * TypeData) * gset string) :
  visit_entries requested entries st
  = fold_left (visit_type requested) (concat entries) st.
Proof.
  unfold visit_entries. revert st.
  induction entries as [|e rest IH]; intros st; simpl; [done |].
  by rewrite fold_left_app, IH.
Qed.

Lemma _get_types_selected (types_entries : list TypesEntry) (kw : string) :
  _get_types types_entries (Some kw)
  = selected (requested_attributes_of kw) ∅ (catalog_items types_entries).
Proof.
  unfold _get_types, catalog_items.
  destruct (String.eqb_spec (Py.strip kw) "") as [E|_].
  - by rewrite (blank_no_requested_attributes kw E), selected_no_keyword.
  - destruct (requested_attributes_of kw) as [|k ks] eqn:Er.
    + by rewrite selected_no_keyword.
    + by rewrite visit_entries_concat, fold_visit_type.
Qed.

Lemma selected_sublist (requested : list string) (seen : gset string)
  (items : list (string * TypeData)) :
  selected requested seen items `sublist_of` items.
Proof.
  revert seen. induction items as [|[n td] rest IH]; intros seen; simpl.
  - constructor.
  - destruct (type_hit requested td); [case_decide |];
      by constructor.
Qed.

Lemma selected_sound (requested : list string) (seen : gset string)
  (items : list (string * TypeData)) (n : string) (td : TypeData) :
  (n, td) ∈ selected requested seen items ->
  (n, td) ∈ items /\ type_hit requested td = true /\ n ∉ seen.
Proof.
  revert seen. induction items as [|[m td'] rest IH]; intros seen; simpl.
  - by intros ?%elem_of_nil.
  - destruct (type_hit requested td') eqn:E; [case_decide |].
    + intros (? & ? & ?)%IH. split_and!; try done. by right.
    + intros [[= -> ->]|(H0 & H1 & H2)%IH]%elem_of_cons.
      * split_and!; try done. by left.
      * split_and!; try done; [by right |].
        intros Hs. apply H2, elem_of_union. by right.
    + intros (? & ? & ?)%IH. split_and!; try done. by right.
Qed.

Lemma selected_NoDup (requested : list string) (seen : gset string)
  (items : list (string * TypeData)) :
  NoDup (selected requested seen items).*1.
Proof.
  revert seen. induction items as [|[n td] rest IH]; intros seen; simpl.
  - constructor.
  - destruct (type_hit requested td); [case_decide |]; try apply IH.
    simpl. constructor; [|apply IH].
    intros ([m td'] & -> & (_ & _ & Hm)%selected_sound)%list_elem_of_fmap.
    apply Hm, elem_of_union. left. by apply elem_of_singleton.
Qed.

Lemma selected_complete (requested : list string) (seen : gset string)
  (items : list (string * TypeData)) (n : string) (td : TypeData) :
  (n, td) ∈ items -> type_hit requested td = true ->
  n ∈ seen \/ n ∈ (selected requested seen items).*1.
Proof.
  revert seen. induction items as [|[m td'] rest IH]; intros seen; simpl.
  - by intros ?%elem_of_nil.
  - intros [[= <- <-]|Hin]%elem_of_cons Hhit.
    + rewrite Hhit. case_decide; [by left | right; simpl; by left].
    + destruct (type_hit requested td'); [case_decide |]; try by apply IH.
      destruct (IH ({[m]} ∪ seen) Hin Hhit) as [Hs|Hs].
      * apply elem_of_union in Hs as [->%elem_of_singleton|Hs];
          [right; simpl; by left | by left].
      * right. simpl. by right.
Qed.

Lemma unique_name_data (items : list (string * TypeData)) (n : string)
  (td1 td2 : TypeData) :
  NoDup items.*1 -> (n, td1) ∈ items -> (n, td2) ∈ items -> td1 = td2.
Proof.
  induction items as [|[m td] rest IH]; simpl.
  - by intros _ ?%elem_of_nil.
  - intros [Hm Hnd]%NoDup_cons [[= -> ->]|H1]%elem_of_cons
      [[= <-]|H2]%elem_of_cons; try done; [| |by apply IH];
      exfalso; apply Hm, list_elem_of_fmap; by eexists (_, _).
Qed.

Section Resolver.

Variable types_entries : list TypesEntry.

(** C4. [get_types] returns catalog items in catalog order, no type name
    twice; each returned type matches (a keyword occurs in its lower-cased
    description or in that of one of its attributes), and each matching
    type of the catalog has its name in the result. With type names unique
    in the catalog, the result holds exactly the matching types. Blank
    input (none, or nothing but white space) gives the empty list; the
    function is total. The keywords are the comma-separated elements of
    the input without the white space at their ends, in lower case, the
    empty ones left out. *)
Theorem get_types_matches (keywords : option string) :
  let result := get_types types_entries keywords in
  let items := catalog_items types_entries in
  ((keywords = None \/ exists kw, keywords = Some kw /\ all_space kw = true) ->
   result = []) /\
  result `sublist_of` items /\
  NoDup result.*1 /\
  (forall name td,
     (name, td) ∈ result -> (name, td) ∈ items /\ type_matches keywords td) /\
  (forall name td,
     (name, td) ∈ items -> type_matches keywords td -> name ∈ result.*1) /\
  (NoDup items.*1 ->
   forall name td,
     (name, td) ∈ result <-> (name, td) ∈ items /\ type_matches keywords td).
Proof.
  simpl. unfold get_types.
  assert (forall name td,
    (name, td) ∈ _get_types types_entries keywords ->
    (name, td) ∈ catalog_items types_entries /\ type_matches keywords td)
    as Hsound.
  { destruct keywords as [kw|]; [|by intros ? ? ?%elem_of_nil].
    rewrite _get_types_selected.
    intros name td (? & ? & _)%selected_sound. by rewrite <- type_hit_spec. }
  assert (forall name td,
    (name, td) ∈ catalog_items types_entries -> type_matches keywords td ->
    name ∈ (_get_types types_entries keywords).*1) as Hcomplete.
  { destruct keywords as [kw|];
      [|by intros ? ? _ (k & (? & ? & ? & ? & ? & _) & _)].
    rewrite _get_types_selected.
    intros name td Hin Hm%type_hit_spec.
    by destruct (selected_complete _ ∅ _ _ _ Hin Hm) as [?%elem_of_empty|]. }
  split_and!; try done.
  - intros [->|(kw & -> & E%all_space_strip_empty)]; [done |].
    by rewrite _get_types_selected, blank_no_requested_attributes,
      selected_no_keyword.
  - destruct keywords as [kw|]; [|apply sublist_nil_l].
    rewrite _get_types_selected. apply selected_sublist.
  - destruct keywords as [kw|]; [|constructor].
    rewrite _get_types_selected. apply selected_NoDup.
  - intros Hnd name td. split; [apply Hsound |]. intros [Hin Hm].
    destruct (proj1 (list_elem_of_fmap _ _ _) (Hcomplete _ _ Hin Hm))
      as ([name' td'] & Hn & Hin'). simpl in Hn. subst name'.
    destruct (Hsound _ _ Hin') as [Hin'' _].
    by rewrite (unique_name_data _ _ _ _ Hnd Hin Hin'').
Qed.

End Resolver.

(** ** Occurrences in a concatenation *)

Lemma app_nonempty_longer (s m : string) :
  String.length s < String.length (s +:+ m) -> m <> "".
Proof. intros H ->. rewrite app_empty_r in H. lia. Qed.

(** An occurrence in [x +:+ y] lies in [x], or in [y], or across the two. *)
Lemma occurs_app (sub x y : string) :
  occurs sub (x +:+ y) ->
  occurs sub x \/ occurs sub y \/
  exists p q,
    sub = p +:+ q /\ p <> "" /\ q <> "" /\ is_suffix p x /\ is_prefix q y.
Proof.
  intros (l & r & H).
  destruct (le_lt_dec (String.length x) (String.length l)) as [Hle|Hlt].
  - destruct (app_eq_split x y l (sub +:+ r) H Hle) as (m & -> & ->).
    right; left. by exists m, r.
  - symmetry in H.
    destruct (app_eq_split l (sub +:+ r) x y H) as (m & -> & Hm); [lia |].
    destruct (le_lt_dec (String.length sub) (String.length m)) as [Hle|Hlt'].
    + destruct (app_eq_split sub r m y Hm Hle) as (m' & -> & ->).
      left. by exists l, m'.
    + symmetry in Hm.
      destruct (app_eq_split m y sub r Hm) as (q & -> & ->); [lia |].
      right; right. exists m, q. split_and!; try done.
      * by apply (app_nonempty_longer l).
      * by apply (app_nonempty_longer m).
      * by exists l.
      * by exists r.
Qed.

Lemma occurs_app_l (sub x y : string) : occurs sub x -> occurs sub (x +:+ y).
Proof.
  intros (l & r & ->). exists l, (r +:+ y). by rewrite !app_assoc_str.
Qed.

Lemma occurs_app_r (sub x y : string) : occurs sub y -> occurs sub (x +:+ y).
Proof.
  intros (l & r & ->). exists (x +:+ l), r. by rewrite !app_assoc_str.
Qed.

Lemma occurs_strip (sub s : string) : occurs sub (Py.strip s) -> occurs sub s.
Proof.
  intros H. destruct (strip_split s) as (w1 & w2 & Hs & _). rewrite Hs.
  by apply occurs_app_r, occurs_app_l.
Qed.


Lemma splits_spec (s p q : string) : s = p +:+ q -> In (p, q) (splits s).
Proof.
  revert s. induction p as [|c p IH]; intros s ->; simpl.
  - destruct q; by left.
  - right. apply in_map_iff. exists (p, q). split; [done | by apply IH].
Qed.

(** The cuts of a given string [s], from [H : s = p +:+ q]. *)
Ltac cut_cases H :=
  apply splits_spec in H; vm_compute in H;
  repeat (destruct H as [H|H]; [injection H as <- <-|]); [..|done].

Lemma string_forall_app (P : ascii -> bool) (s t : string) :
  string_forall P (s +:+ t) = string_forall P s && string_forall P t.
Proof.
  induction s as [|c s IH]; simpl; [done |]. by rewrite IH, andb_assoc.
Qed.

Lemma string_forall_strip (P : ascii -> bool) (s : string) :
  string_forall P s = true -> string_forall P (Py.strip s) = true.
Proof.
  destruct (strip_split s) as (w1 & w2 & Hs & _). rewrite Hs at 1.
  rewrite !string_forall_app, !andb_true_iff. tauto.
Qed.

Lemma first_char_app_nonempty (s t : string) :
  s <> "" -> first_char (s +:+ t) = first_char s.
Proof. by destruct s. Qed.

Lemma last_char_app_nonempty (s t : string) :
  t <> "" -> last_char (s +:+ t) = last_char t.
Proof.
  intros Ht. induction s as [|c s IH]; simpl; [done |].
  rewrite IH. destruct (s +:+ t) eqn:E; [|done].
  destruct s; simpl in E; [done | discriminate].
Qed.

(** A string without [c] that occurs between two [c] occurs between them
    already. *)
Lemma occurs_between (sub s : string) (c : ascii) :
  string_forall (fun a => negb (Ascii.eqb a c)) sub = true ->
  occurs sub (String c "" +:+ s +:+ String c "") ->
  occurs sub s.
Proof.
  intros Hsub H.
  assert (forall p q, sub = p +:+ q -> p <> "" ->
                      ~ is_suffix p (String c "")) as Hsuf.
  { intros p q -> Hp [u Hu]. rewrite string_forall_app in Hsub.
    apply andb_true_iff in Hsub as [Hsub _].
    destruct u as [|d u]; simpl in Hu.
    - subst p. simpl in Hsub. by rewrite Ascii.eqb_refl in Hsub.
    - injection Hu as _ Hu. destruct u, p; simpl in Hu; done. }
  assert (forall p q, sub = p +:+ q -> q <> "" ->
                      ~ is_prefix q (String c "")) as Hpre.
  { intros p q -> Hq [v Hv]. rewrite string_forall_app in Hsub.
    apply andb_true_iff in Hsub as [_ Hsub].
    destruct q as [|d q]; [done |]. simpl in Hv. injection Hv as <- _.
    simpl in Hsub. by rewrite Ascii.eqb_refl in Hsub. }
  assert (~ occurs sub (String c "") \/ sub = "") as Hone.
  { destruct sub as [|d sub]; [by right | left]. intros (l & r & Hl).
    apply (Hpre "" (String d sub) eq_refl); [done |].
    destruct l as [|e l]; simpl in Hl; [by exists r |].
    injection Hl as _ Hl. destruct l; simpl in Hl; done. }
  destruct Hone as [Hone| ->]; [|by exists "", s].
  apply occurs_app in H as [H|[H|(p & q & Hs & Hp & Hq & Hsp & _)]].
  - done.
  - apply occurs_app in H as [H|[H|(p & q & Hs & Hp & Hq & _ & Hpq)]].
    + done.
    + done.
    + by destruct (Hpre p q Hs Hq).
  - by destruct (Hsuf p q Hs Hp).
Qed.

(** ** The operators against each other *)

Lemma supported_operator_length (op : string) :
  In op supported_operators -> 1 <= String.length op.
Proof. intros H. operator_cases H; simpl; lia. Qed.

(** A proper end of one operator starts another one only for [==]. *)
Lemma operator_overlap (o op p q : string) :
  In o supported_operators -> In op supported_operators ->
  o = p +:+ q -> p <> "" -> q <> "" -> is_prefix q op ->
  op = "==" /\ exists a, o = String a "=" /\ p = String a "".
Proof.
  intros Ho Hop Hs Hp Hq [v Hv]. apply strip_prefix_spec in Hv.
  operator_cases Ho; cut_cases Hs; try done;
    operator_cases Hop; vm_compute in Hv; try discriminate;
    (split; [done | eexists; split; reflexivity]).
Qed.

(** When a proper start of an operator ends another one, what follows that
    start begins with [=]. *)
Lemma operator_bridge (o op p q : string) :
  In o supported_operators -> In op supported_operators ->
  o = p +:+ q -> p <> "" -> q <> "" -> is_suffix p op ->
  first_char q = Some "="%char.
Proof.
  intros Ho Hop Hs Hp Hq [u Hu].
  operator_cases Ho; cut_cases Hs; try done; try reflexivity;
    exfalso; operator_cases Hop;
    apply splits_spec in Hu; vm_compute in Hu; intuition discriminate.
Qed.

(** No operator stands strictly inside another one. *)
Lemma operator_inside (o op p m : string) :
  In o supported_operators -> In op supported_operators ->
  o = p +:+ op +:+ m -> p <> "" -> m <> "" -> False.
Proof.
  intros Ho Hop Hs Hp Hm. remember (op +:+ m) as q eqn:Hq.
  apply strip_prefix_spec in Hq.
  operator_cases Ho; cut_cases Hs; try done;
    operator_cases Hop; vm_compute in Hq; congruence.
Qed.

Lemma operator_no_quote (o : string) :
  In o supported_operators ->
  string_forall (fun a => negb (Ascii.eqb a dquote)) o = true.
Proof. intros H. by operator_cases H. Qed.

Lemma operator_no_semicolon (o : string) :
  In o supported_operators -> no_semicolon o = true.
Proof. intros H. by operator_cases H. Qed.

(** ** The value a second time *)

Lemma c_rstrip_first (c : ascii) (s : string) :
  Py.c_isspace c = false -> exists y, Py.c_rstrip (String c s) = String c y.
Proof.
  intros Hc. simpl. destruct (Py.c_rstrip s) as [|d r]; [|by eexists].
  rewrite Hc. by eexists.
Qed.

Lemma float_not_equals_sign (s : string) :
  Py.float_ok (String "="%char s) = false.
Proof.
  unfold Py.float_ok.
  assert (exists x, Py.transform_decimal_and_space (String "="%char s)
                    = String "="%char x) as [x ->].
  { unfold Py.transform_decimal_and_space.
    destruct (Py.is_ascii _); by eexists. }
  change (Py.c_lstrip (String "="%char x)) with (String "="%char x).
  destruct (c_rstrip_first "="%char x eq_refl) as [y ->].
  assert (forall z, Py.float_from_string_inner (String "="%char z) = false)
    as Hinner by done.
  destruct (Py.has_underscore _); [|apply Hinner]. simpl.
  destruct (Py.remove_underscores "="%char y); simpl; [apply Hinner | done].
Qed.

Lemma quote_not_equals_sign (c : ascii) :
  is_quote c = true -> c <> "="%char.
Proof. by intros H ->. Qed.

Lemma quote_value_first_char (raw : string) :
  first_char (quote_value raw) <> Some "="%char.
Proof.
  rewrite quote_value_cases.
  destruct (is_number raw) eqn:En; simpl.
  - destruct raw as [|c raw]; [done |]. intros [= ->].
    unfold is_number in En. by rewrite float_not_equals_sign in En.
  - destruct (is_quoted raw) eqn:Eq; [|done].
    apply is_quoted_spec in Eq as (_ & q & Hq & -> & _).
    intros [= ->]. done.
Qed.

Lemma quote_value_trimmed (raw : string) :
  trimmed raw = true -> trimmed (quote_value raw) = true.
Proof.
  intros H. rewrite quote_value_cases.
  destruct (is_number raw || is_quoted raw); [done |].
  unfold trimmed, double_quote.
  change (String dquote "" +:+ raw +:+ String dquote "")
    with (String dquote raw +:+ String dquote "").
  by rewrite last_char_app.
Qed.

Lemma quote_value_twice (raw : string) :
  quote_value (quote_value raw) = quote_value raw.
Proof.
  rewrite (quote_value_cases raw).
  destruct (is_number raw || is_quoted raw) eqn:E.
  - by rewrite quote_value_cases, E.
  - apply quote_value_quoted, (is_quoted_wrapped dquote raw eq_refl).
Qed.

Lemma occurs_quote_value (o raw : string) :
  In o supported_operators -> occurs o (quote_value raw) -> occurs o raw.
Proof.
  intros Ho. rewrite quote_value_cases.
  destruct (is_number raw || is_quoted raw); [done |].
  apply occurs_between. by apply operator_no_quote.
Qed.

Lemma quote_value_no_semicolon (raw : string) :
  no_semicolon raw = true -> no_semicolon (quote_value raw) = true.
Proof.
  intros H. rewrite quote_value_cases.
  destruct (is_number raw || is_quoted raw); [done |].
  unfold no_semicolon in *. simpl. rewrite string_forall_app, H. done.
Qed.

(** ** Normalizing a normalized clause *)

Lemma scan_operators_intro (operators before after : list string)
  (op c l r : string) :
  operators = before ++ op :: after ->
  Forall (fun o => ~ occurs o c) before ->
  first_occurrence op c l r ->
  scan_operators operators c = Some (Py.strip l, op, Py.strip r).
Proof.
  intros -> Hb Hf. induction Hb as [|o before Ho _ IH]; simpl.
  - assert (Py.contains op c = true) as ->.
    { apply contains_spec. destruct Hf as [-> _]. by exists l, r. }
    unfold Py.split1. by rewrite (proj2 (partition_spec _ _ _ _) Hf).
  - by rewrite (proj2 (contains_false _ _) Ho).
Qed.

Section Reparse.

(** A filter [f], split at the leftmost occurrence of its operator [op],
    the first of the list that occurs in it. *)
Variables (f op l r : string) (before after : list string).
Hypothesis Hops : supported_operators = before ++ op :: after.
Hypothesis Hbefore : Forall (fun o => ~ occurs o f) before.
Hypothesis Hfirst : first_occurrence op f l r.

Local Abbreviation attr := (Py.strip l).
Local Abbreviation value := (quote_value (Py.strip r)).

Lemma reparse_operator : In op supported_operators.
Proof. rewrite Hops. apply in_elt. Qed.

Lemma reparse_occurs_left (o : string) : occurs o attr -> occurs o f.
Proof.
  intros H%occurs_strip. destruct Hfirst as [Hf _]. rewrite Hf.
  by apply occurs_app_l.
Qed.

Lemma reparse_occurs_operator (o : string) : occurs o op -> occurs o f.
Proof.
  intros H. destruct Hfirst as [Hf _]. rewrite Hf.
  by apply occurs_app_r, occurs_app_l.
Qed.

Lemma reparse_occurs_right (o : string) :
  In o supported_operators -> occurs o value -> occurs o f.
Proof.
  intros Ho H%occurs_quote_value%occurs_strip; [|done].
  destruct Hfirst as [Hf _]. rewrite Hf.
  by apply occurs_app_r, occurs_app_r.
Qed.

(** The operators before [op] do not occur in the rendered clause. *)
Lemma reparse_earlier_absent :
  Forall (fun o => ~ occurs o (attr +:+ op +:+ value)) before.
Proof.
  apply Forall_forall. intros o Hin%list_elem_of_In Hocc.
  assert (~ occurs o f) as Hno.
  { rewrite Forall_forall in Hbefore. by apply Hbefore, list_elem_of_In. }
  assert (In o supported_operators) as Ho.
  { rewrite Hops. apply in_or_app. by left. }
  pose proof reparse_operator as Hop.
  apply occurs_app in Hocc
    as [H|[H|(p & q & Hs & Hp & Hq & Hsuf & [v Hv])]].
  - by apply Hno, reparse_occurs_left.
  - apply occurs_app in H as [H|[H|(p & q & Hs & Hp & Hq & Hsuf & [v Hv])]].
    + by apply Hno, reparse_occurs_operator.
    + by apply Hno, reparse_occurs_right.
    + pose proof (operator_bridge o op p q Ho Hop Hs Hp Hq Hsuf) as Hc.
      apply (quote_value_first_char (Py.strip r)).
      by rewrite Hv, first_char_app_nonempty.
  - destruct (le_lt_dec (String.length q) (String.length op)) as [Hle|Hlt].
    + symmetry in Hv.
      destruct (app_eq_split q v op value Hv Hle) as (m & Hm & _).
      destruct (operator_overlap o op p q Ho Hop Hs Hp Hq) as [-> _];
        [by exists m |].
      destruct before as [|o0 before']; [done |].
      injection Hops as <- _. apply Forall_cons in Hbefore as [Hb _].
      apply Hb. destruct Hfirst as [Hf _]. by exists l, r.
    + destruct (app_eq_split op value q v Hv) as (m & -> & _); [lia |].
      apply (operator_inside o op p m Ho Hop Hs Hp).
      by apply (app_nonempty_longer op).
Qed.

(** In the rendered clause the operator occurs first where the clause was
    put together, unless it is [==] after a left part that ends with [=]. *)
Lemma reparse_first_occurrence :
  ~ (op = "==" /\ last_char attr = Some "="%char) ->
  first_occurrence op (attr +:+ op +:+ value) attr value.
Proof.
  intros Heq. split; [done |]. intros l' r' H.
  destruct (le_lt_dec (String.length attr) (String.length l'))
    as [Hle|Hlt]; [done | exfalso].
  pose proof reparse_operator as Hop.
  pose proof (supported_operator_length op Hop) as Hlen.
  symmetry in H.
  destruct (app_eq_split l' (op +:+ r') attr (op +:+ value) H)
    as (m & Hattr & Hm); [lia |].
  assert (m <> "") as Hne.
  { apply (app_nonempty_longer l'). by rewrite <- Hattr. }
  destruct (le_lt_dec (String.length op) (String.length m)) as [Hle|Hlt'].
  - destruct (app_eq_split op r' m (op +:+ value) Hm Hle) as (m' & -> & _).
    destruct (strip_split l) as (w1 & w2 & Hl & _).
    destruct Hfirst as [Hf Hmin].
    specialize (Hmin (w1 +:+ l') (m' +:+ w2 +:+ op +:+ r)).
    rewrite Hf, Hl, Hattr, !app_assoc_str in Hmin.
    specialize (Hmin eq_refl).
    rewrite !app_length_str in Hmin. lia.
  - symmetry in Hm.
    destruct (app_eq_split m (op +:+ value) op r' Hm) as (q & Hq & Hv);
      [lia |].
    assert (q <> "") as Hqne.
    { apply (app_nonempty_longer m). by rewrite <- Hq. }
    assert (is_prefix q op) as Hpre.
    { symmetry in Hv.
      destruct (app_eq_split q r' op value Hv) as (m2 & ? & _); [|by exists m2].
      pose proof (f_equal String.length Hq) as Hlq.
      rewrite app_length_str in Hlq. lia. }
    destruct (operator_overlap op op m q Hop Hop Hq Hne Hqne Hpre)
      as (Heq' & a & Ha & ->).
    apply Heq. split; [done |]. rewrite Heq' in Ha. injection Ha as <-.
    rewrite Hattr. by apply last_char_app_nonempty.
Qed.

Lemma reparse_scan :
  ~ (op = "==" /\ last_char attr = Some "="%char) ->
  scan_operators supported_operators (attr +:+ op +:+ value)
  = Some (attr, op, value).
Proof.
  intros Heq.
  rewrite (scan_operators_intro _ before after op _ attr value Hops
             reparse_earlier_absent (reparse_first_occurrence Heq)).
  rewrite strip_strip, (strip_id (quote_value _)); [done |].
  apply quote_value_trimmed, strip_trimmed.
Qed.

End Reparse.

Lemma normalize_filter_scan (f c : string) :
  normalize_filter f = inr c ->
  exists attr op raw,
    scan_operators supported_operators f = Some (attr, op, raw) /\
    c = attr +:+ op +:+ quote_value raw.
Proof.
  unfold normalize_filter.
  destruct (scan_operators supported_operators f) as [[[attr op] raw]|];
    [|done].
  destruct (String.eqb op ""); [done |]. intros [= <-]. by exists attr, op, raw.
Qed.

(** A rendered clause is normalized to itself. *)
Lemma normalize_filter_rendered (f c : string) :
  normalize_filter f = inr c ->
  equals_before_operator f = false ->
  normalize_filter c = inr c.
Proof.
  intros (attr & op & raw & E & ->)%normalize_filter_scan Heq.
  unfold equals_before_operator in Heq. rewrite E in Heq.
  destruct (scan_operators_some _ _ _ _ _ E)
    as (before & after & l & r & Hops & Hb & Ho & Hf & -> & ->).
  assert (~ (op = "==" /\ last_char (Py.strip l) = Some "="%char)) as Hne.
  { intros [-> Hl]. rewrite Hl in Heq. done. }
  unfold normalize_filter.
  rewrite (reparse_scan f op l r before after Hops Hb Hf Hne).
  assert (op <> "") as ->%String.eqb_neq.
  { apply supported_operator_nonempty. rewrite Hops. apply in_elt. }
  by rewrite quote_value_twice.
Qed.

Lemma normalize_filter_no_semicolon (f c : string) :
  normalize_filter f = inr c ->
  no_semicolon f = true ->
  no_semicolon c = true.
Proof.
  intros (attr & op & raw & E & ->)%normalize_filter_scan.
  destruct (scan_operators_some _ _ _ _ _ E)
    as (before & after & l & r & Hops & _ & _ & [-> _] & -> & ->).
  unfold no_semicolon. rewrite !string_forall_app, !andb_true_iff.
  intros (Hl & Hop & Hr). split_and!; try done.
  - by apply string_forall_strip.
  - by apply quote_value_no_semicolon, string_forall_strip.
Qed.

(** ** Splitting what was joined *)

Lemma split_join (clauses : list string) :
  clauses <> [] ->
  Forall (fun c => no_semicolon c = true) clauses ->
  Py.split ";"%char (Py.join ";" clauses) = clauses.
Proof.
  intros Hne H. induction H as [|c rest Hc Hrest IH]; [done |].
  destruct rest as [|c' rest].
  - simpl. by apply split_no_separator.
  - change (Py.join ";" (c :: c' :: rest))
      with (c +:+ String ";"%char (Py.join ";" (c' :: rest))).
    rewrite split_app_separator by done. by rewrite IH.
Qed.

Lemma normalize_loop_inr (filters acc clauses : list string) :
  normalize_loop filters acc = inr clauses ->
  exists rendered,
    clauses = acc ++ rendered /\
    Forall2 (fun f c => normalize_filter f = inr c) filters rendered.
Proof.
  revert acc. induction filters as [|f rest IH]; intros acc; simpl.
  - intros [= <-]. exists []. by rewrite app_nil_r.
  - destruct (normalize_filter f) as [msg|c] eqn:E; [done |].
    intros (rendered & -> & HF)%IH. exists (c :: rendered).
    rewrite <- app_assoc. split; [done | by constructor].
Qed.

Lemma normalize_loop_fixed (clauses acc : list string) :
  Forall (fun c => normalize_filter c = inr c) clauses ->
  normalize_loop clauses acc = inr (acc ++ clauses).
Proof.
  intros H. revert acc. induction H as [|c rest Hc _ IH]; intros acc; simpl.
  - by rewrite app_nil_r.
  - by rewrite Hc, IH, <- app_assoc.
Qed.

(** C8, in the form the code satisfies. For a list of filters that is not
    empty, holds no [;], and has no filter split at [==] after a left part
    ending with [=]: when the normalizer succeeds, splitting its output at
    [;] and normalizing the parts gives the same string again; a value that
    went through the quoting step is left as it is by a second one. *)
Theorem normalize_idempotent (filters : list string) (query : string) :
  normalize filters = inr query ->
  filters <> [] ->
  Forall (fun f => no_semicolon f = true) filters ->
  Forall (fun f => equals_before_operator f = false) filters ->
  normalize (Py.split ";"%char query) = inr query /\
  forall raw, quote_value (quote_value raw) = quote_value raw.
Proof.
  intros Hq Hne Hsemi Heq. split; [|apply quote_value_twice].
  revert Hq Hne Hsemi Heq.
  unfold normalize at 1.
  destruct (normalize_loop filters []) as [msg|clauses] eqn:E; [done |].
  intros [= <-] Hne Hsemi Heq.
  apply normalize_loop_inr in E as (rendered & -> & HF). simpl.
  assert (rendered <> []) as Hne' by (destruct HF; done).
  assert (Forall (fun c => no_semicolon c = true) rendered /\
          Forall (fun c => normalize_filter c = inr c) rendered) as [H1 H2].
  { clear Hne Hne'. induction HF as [|f c fs cs Hfc _ IH]; [done |].
    apply Forall_cons in Hsemi as [Hs Hsemi], Heq as [He Heq].
    destruct (IH Hsemi Heq) as [IH1 IH2]. split; constructor; try done.
    - by apply (normalize_filter_no_semicolon f).
    - by apply (normalize_filter_rendered f). }
  rewrite (split_join rendered Hne' H1). unfold normalize.
  by rewrite (normalize_loop_fixed rendered [] H2).
Qed.

(** ** The parameter set *)

Lemma operator_not_blank (op : string) :
  In op supported_operators -> all_space op = false.
Proof. intros H. by operator_cases H. Qed.

Lemma clause_not_blank (f c : string) :
  normalize_filter f = inr c -> all_space c = false.
Proof.
  intros (attr & op & raw & E & ->)%normalize_filter_scan.
  apply scan_operators_some in E as (before & after & _ & _ & Hops & _).
  rewrite !all_space_app, (operator_not_blank op).
  - by rewrite andb_false_r.
  - rewrite Hops. apply in_elt.
Qed.

Lemma join_not_blank (c : string) (rest : list string) :
  all_space c = false -> all_space (Py.join ";" (c :: rest)) = false.
Proof.
  intros H. destruct rest as [|c' rest]; [done |].
  change (Py.join ";" (c :: c' :: rest))
    with (c +:+ String ";"%char (Py.join ";" (c' :: rest))).
  by rewrite all_space_app, H.
Qed.

Lemma read_query_present (f : option (list string)) (q : string) :
  read_query f = inr (Some q) ->
  (exists fs, f = Some fs /\ fs <> []) /\ supplied (Some q).
Proof.
  unfold read_query, normalize. destruct f as [[|f0 fs]|]; try done.
  destruct (normalize_loop (f0 :: fs) []) as [msg|clauses] eqn:E; [done |].
  intros [= <-]. split; [by exists (f0 :: fs) |].
  apply normalize_loop_inr in E as (rendered & -> & HF). simpl.
  inversion HF as [|? c ? cs Hc _]; subst.
  exists (Py.join ";" (c :: cs)). split; [done |].
  apply join_not_blank. by apply (clause_not_blank f0).
Qed.

Lemma read_query_absent (f : option (list string)) :
  read_query f = inr None -> f = None \/ f = Some [].
Proof.
  unfold read_query. destruct f as [[|f0 fs]|]; try tauto.
  by destruct (normalize (f0 :: fs)).
Qed.

(** The clause of the specification is the one the loop body renders. *)
Lemma clause_of_normalize_filter (f c : string) :
  clause_of f c <-> normalize_filter f = inr c.
Proof.
  split; [|apply normalize_filter_inr].
  intros (op & l & r & attr & raw & value
          & (before & after & Hops & Ho & Hb) & Hf
          & ->%is_trim_of_strip & ->%is_trim_of_strip
          & ->%rendered_value_spec & ->).
  unfold normalize_filter.
  rewrite (scan_operators_intro supported_operators before after op f l r)
    by done.
  assert (op <> "") as ->%String.eqb_neq; [|done].
  apply supported_operator_nonempty. rewrite supported_operators_priority, Hops.
  apply in_elt.
Qed.

Lemma normalize_loop_rendered (filters acc rendered : list string) :
  Forall2 (fun f c => normalize_filter f = inr c) filters rendered ->
  normalize_loop filters acc = inr (acc ++ rendered).
Proof.
  intros H. revert acc. induction H as [|f c fs cs Hc _ IH]; intros acc; simpl.
  - by rewrite app_nil_r.
  - by rewrite Hc, IH, <- app_assoc.
Qed.

Lemma normalize_clauses (filters clauses : list string) :
  Forall2 clause_of filters clauses ->
  normalize filters = inr (separated_by ";"%char clauses).
Proof.
  intros H. unfold normalize.
  rewrite (normalize_loop_rendered filters [] clauses).
  - by rewrite separated_by_join.
  - eapply Forall2_impl; [done |]. intros f c. apply clause_of_normalize_filter.
Qed.

Lemma normalize_inr (filters : list string) (q : string) :
  normalize filters = inr q ->
  exists clauses,
    Forall2 clause_of filters clauses /\ q = separated_by ";"%char clauses.
Proof.
  unfold normalize.
  destruct (normalize_loop filters []) as [msg|cs] eqn:E; [done |].
  intros [= <-]. apply normalize_loop_inr in E as (rendered & -> & HF).
  exists rendered. split; [|by rewrite separated_by_join].
  eapply Forall2_impl; [done |]. intros f c. apply clause_of_normalize_filter.
Qed.

(** The query of [_read], stated on the filters. *)
Lemma read_query_some (f : option (list string)) (q : string) :
  read_query f = inr (Some q)
  <-> exists filters clauses,
        f = Some filters /\ filters <> [] /\
        Forall2 clause_of filters clauses /\
        q = separated_by ";"%char clauses.
Proof.
  unfold read_query. split.
  - destruct f as [[|f0 fs]|]; try done.
    destruct (normalize (f0 :: fs)) as [msg|q'] eqn:E; [done |].
    intros [= <-]. apply normalize_inr in E as (clauses & HF & ->).
    by exists (f0 :: fs), clauses.
  - intros (filters & clauses & -> & Hne & HF%normalize_clauses & ->).
    destruct filters; [done |]. by rewrite HF.
Qed.

Section Parameters.

Context {Json : Type}.
Variable types_entries : list TypesEntry.
Variable store : Request -> option Json.

(** C7. When [read] returns the decoded answer of the store, it has sent
    one request, and the parameter set of that request has the key [type],
    [id], [q] or [attrs] exactly when the type identifier, the object
    identifier, the normalized query or the attribute selection is supplied
    (given and not blank), with that input as its value; it has no other
    key and no empty value. The query is supplied exactly when the list of
    filters is not empty, and is then the clauses of the filters with a
    [;] between them. *)
Theorem read_parameter_set (t o a : option string)
  (f : option (list string)) (body : Json) (requests : list Request) :
  read types_entries store t o a f = (Objects body, requests) ->
  exists query request,
    read_query f = inr query /\
    requests = [request] /\
    store request = Some body /\
    key_from (req_params request) "type" t /\
    key_from (req_params request) "id" o /\
    key_from (req_params request) "q" query /\
    key_from (req_params request) "attrs" a /\
    (is_Some (req_params request !! "q")
     <-> exists fs, f = Some fs /\ fs <> []) /\
    (forall q,
       req_params request !! "q" = Some q
       <-> exists filters clauses,
             f = Some filters /\ filters <> [] /\
             Forall2 clause_of filters clauses /\
             q = separated_by ";"%char clauses) /\
    (forall k v,
       req_params request !! k = Some v ->
       v <> "" /\ In k ["type"; "id"; "q"; "attrs"]).
Proof.
  intros H.
  assert (_read store t o a f = (Objects body, requests)) as H'.
  { revert H. unfold read. destruct (nonblank t && nonblank o); [done |].
    destruct t as [s|]; [|done].
    by destruct (nonblank (Some s) && negb (type_exists types_entries s)). }
  clear H. revert H'. unfold _read.
  destruct (read_query f) as [msg|query] eqn:Eq; [done |].
  destruct (store _) as [objects|] eqn:E; [|done]. intros [= -> <-].
  exists query, (build_request (build_params t o query a)).
  pose proof (build_params_keys t o query a) as K. simpl in K.
  change (req_params (build_request (build_params t o query a)))
    with (build_params t o query a).
  split_and!; try apply K; try done.
  - destruct K as (_ & _ & Kq & _). destruct query as [q|].
    + apply read_query_present in Eq as [Hf Hq]. split; [done |].
      intros _. exists q. by apply Kq.
    + apply read_query_absent in Eq. split.
      * intros [v (? & _)%Kq]. done.
      * intros (fs & -> & Hfs). destruct Eq as [Eq|Eq]; by simplify_eq.
  - destruct K as (_ & _ & Kq & _). intros q.
    rewrite <- read_query_some, Eq, (Kq q). split.
    + by intros [-> _].
    + intros [= ->]. split; [done |].
      by apply read_query_present in Eq as [_ Hq].
Qed.

End Parameters.

(** ** Worked examples *)

Lemma has_operator_iff (f : string) :
  has_operator f
  <-> existsb (fun op => Py.contains op f) supported_operators = true.
Proof.
  split; [|apply has_operator_intro].
  intros (op & Hin & Ho). apply existsb_exists. exists op.
  split; [done | by apply contains_spec].
Qed.

Lemma type_in_catalog_false (types_entries : list TypesEntry) (s : string) :
  type_exists types_entries s = false -> ~ type_in_catalog types_entries s.
Proof. intros E H%type_exists_spec. congruence. Qed.

(** Three filters, the last of which holds [<=], [<] and [=]: it is split
    at [<=]. *)
Lemma normalize_splits_renders_joins_witness :
  let filters :=
    ["consumption > 0.5"; "located_in==building1"; " level <= 3 "] in
  Forall has_operator filters /\
  normalize filters
  = inr ("consumption>0.5;located_in=="
         +:+ double_quote +:+ "building1" +:+ double_quote
         +:+ ";level<=3") /\
  exists clauses,
    normalize filters = inr (separated_by ";"%char clauses) /\
    Forall2 clause_of filters clauses /\
    (filters <> [] ->
     read_query (Some filters)
     = inr (Some (separated_by ";"%char clauses))).
Proof.
  intros filters.
  assert (Forall has_operator filters)
    as H by (repeat constructor; apply has_operator_intro; reflexivity).
  split; [exact H |]. split; [reflexivity |].
  exact (normalize_splits_renders_joins _ H).
Defined.

(** The value [1e5] is neither a match of the numeric pattern nor quoted, and
    passes unchanged all the same: [float] accepts it. *)
Lemma quote_value_exponent_counterexample :
  matches_numeric_pattern "1e5" = false /\
  ~ pre_quoted "1e5" /\
  quote_value "1e5" = "1e5" /\
  quote_value "1e5" <> double_quote +:+ "1e5" +:+ double_quote.
Proof.
  split_and!; try done.
  by intros (q & Hq & [= <-] & _).
Qed.

Lemma quote_value_rule_witness :
  matches_numeric_pattern "-0.5" = true /\
  is_number "-0.5" = true /\
  quote_value "-0.5" = "-0.5".
Proof.
  destruct (quote_value_rule "-0.5") as (H1 & H2 & _).
  split; [reflexivity |]. split; [exact (H1 eq_refl) |].
  exact (H2 (H1 eq_refl)).
Defined.

(** The one-character value ['] has the same quote character first and
    last, and is wrapped in double quotes. *)
Lemma single_quote_character_counterexample :
  pre_quoted "'" /\
  quote_value "'" = double_quote +:+ "'" +:+ double_quote /\
  quote_value "'" <> "'".
Proof.
  split_and!; try done. by exists "'"%char.
Qed.

Lemma quoted_value_preserved_witness :
  2 <= String.length "'it's'" /\
  pre_quoted "'it's'" /\
  quote_value "'it's'" = "'it's'".
Proof.
  assert (2 <= String.length "'it's'") as H1 by (simpl; lia).
  assert (pre_quoted "'it's'") as H2 by (by exists "'"%char).
  split; [exact H1 |]. split; [exact H2 |].
  exact (proj1 (quoted_value_preserved "'it's'" H1 H2)).
Defined.

Lemma invalid_filter_fails_whole_batch_witness :
  Exists (fun f => ~ has_operator f) ["a==1"; "bad"; "worse"] /\
  exists good f rest,
    ["a==1"; "bad"; "worse"] = good ++ f :: rest /\
    normalize ["a==1"; "bad"; "worse"] = inl (invalid_filter f) /\
    read example_types_entries example_store (Some "plug") None None
      (Some ["a==1"; "bad"; "worse"])
    = (ErrorDict (invalid_filter f), []).
Proof.
  assert (Exists (fun f => ~ has_operator f) ["a==1"; "bad"; "worse"]) as H.
  { apply Exists_cons_tl, Exists_cons_hd. rewrite has_operator_iff.
    vm_compute. discriminate. }
  split; [exact H |].
  destruct (invalid_filter_fails_whole_batch
              example_types_entries example_store _ H)
    as (good & f & rest & H1 & _ & _ & H4 & _ & H6).
  exists good, f, rest. split; [exact H1 |]. split; [exact H4 |].
  apply H6.
  - intros [_ (s & [=] & _)].
  - intros s [= <-] _. apply type_exists_spec. reflexivity.
Defined.

Lemma get_types_matches_witness :
  get_types example_types_entries (Some "   ") = [] /\
  get_types example_types_entries (Some " temperature , Humidity ,")
  = [ ("thermometer",
       {| td_description := "A sensor that measures Temperature";
          td_attributes :=
            [ {| attr_name := "temperature";
                 attr_description := "Degrees Celsius" |} ] |});
      ("hvac_unit",
       {| td_description := "Heating and cooling unit";
          td_attributes :=
            [ {| attr_name := "setpoint";
                 attr_description := "Target temperature" |};
              {| attr_name := "rh";
                 attr_description := "Relative HUMIDITY in the room" |} ] |}) ]
  /\
  forall name td,
    (name, td) ∈ get_types example_types_entries
                   (Some " temperature , Humidity ,")
    <-> (name, td) ∈ catalog_items example_types_entries /\
        type_matches (Some " temperature , Humidity ,") td.
Proof.
  split.
  { apply (get_types_matches example_types_entries (Some "   ")).
    right. exists "   ". split; reflexivity. }
  split; [reflexivity |].
  apply (get_types_matches example_types_entries
           (Some " temperature , Humidity ,")).
  refine (bool_decide_unpack _ _). vm_compute. exact I.
Defined.

Lemma read_conflicting_selectors_witness :
  supplied (Some "plug") /\ supplied (Some "x") /\
  read example_types_entries example_store (Some "plug") (Some "x")
    None None
  = (ErrorDict conflicting_selectors, []).
Proof.
  assert (supplied (Some "plug")) as H1 by (by apply nonblank_supplied).
  assert (supplied (Some "x")) as H2 by (by apply nonblank_supplied).
  split; [exact H1 |]. split; [exact H2 |].
  exact (read_conflicting_selectors example_types_entries example_store
           _ _ None None H1 H2).
Defined.

(** An unknown type together with an object identifier: the answer is the
    conflicting-selectors error, not the unknown-type error. *)
Lemma read_unknown_type_with_object_counterexample :
  supplied (Some "nonexistent_type") /\
  ~ type_in_catalog example_types_entries "nonexistent_type" /\
  read example_types_entries example_store
    (Some "nonexistent_type") (Some "x") None None
  = (ErrorDict conflicting_selectors, []) /\
  conflicting_selectors <> unknown_type "nonexistent_type".
Proof.
  split_and!; try done.
  - by apply nonblank_supplied.
  - by apply type_in_catalog_false.
Qed.

Lemma read_unknown_type_witness :
  supplied (Some "nonexistent_type") /\
  ~ type_in_catalog example_types_entries "nonexistent_type" /\
  ~ supplied None /\
  read example_types_entries example_store
    (Some "nonexistent_type") None None (Some ["temperature>30"])
  = (ErrorDict (unknown_type "nonexistent_type"), []).
Proof.
  assert (supplied (Some "nonexistent_type")) as H1
    by (by apply nonblank_supplied).
  assert (~ type_in_catalog example_types_entries "nonexistent_type") as H2
    by (by apply type_in_catalog_false).
  assert (~ supplied None) as H3 by (by apply nonblank_not_supplied).
  split; [exact H1 |]. split; [exact H2 |]. split; [exact H3 |].
  exact (read_unknown_type example_types_entries example_store
           _ None None _ H1 H2 H3).
Defined.

(** A read of the plugs with a blank object identifier, no attribute
    selection and one filter: the request sent has the keys [type] and [q]
    and no other. *)
Lemma read_parameter_set_witness :
  exists request,
    read example_types_entries example_store
      (Some "plug") (Some "  ") None (Some ["consumption > 0.5"])
    = (Objects ["urn:mcp:plug1"], [request]) /\
    req_params request !! "type" = Some "plug" /\
    req_params request !! "id" = None /\
    req_params request !! "q" = Some "consumption>0.5" /\
    req_params request !! "attrs" = None /\
    key_from (req_params request) "type" (Some "plug") /\
    key_from (req_params request) "id" (Some "  ") /\
    key_from (req_params request) "q" (Some "consumption>0.5") /\
    key_from (req_params request) "attrs" None.
Proof.
  destruct (read_parameter_set example_types_entries example_store
              (Some "plug") (Some "  ") None (Some ["consumption > 0.5"])
              ["urn:mcp:plug1"]
              [build_request
                 (build_params (Some "plug") (Some "  ")
                    (Some "consumption>0.5") None)])
    as (query & request & Hq & Hr & _ & Kt & Ki & Kq & Ka & _ & _);
    [vm_compute; reflexivity |].
  exists request. injection Hr as <-. injection Hq as <-.
  split; [reflexivity |]. split; [reflexivity |]. split; [reflexivity |].
  split; [reflexivity |]. split; [reflexivity |].
  split; [exact Kt |]. split; [exact Ki |]. split; [exact Kq |]. exact Ka.
Defined.

(** A list with a [;] inside a value: the output splits into parts that are
    not the clauses, and the second pass fails. *)
Lemma normalize_semicolon_counterexample :
  let query := "a==" +:+ double_quote +:+ "b;c" +:+ double_quote in
  normalize ["a==b;c"] = inr query /\
  normalize (Py.split ";"%char query)
  = inl (invalid_filter ("c" +:+ double_quote)).
Proof. split; reflexivity. Qed.

Lemma normalize_idempotent_witness :
  let query :=
    "consumption>0.5;located_in==" +:+ double_quote +:+ "building1"
    +:+ double_quote in
  normalize ["consumption > 0.5"; "located_in == building1"] = inr query /\
  normalize (Py.split ";"%char query) = inr query.
Proof.
  split; [reflexivity |].
  refine (proj1 (normalize_idempotent
                   ["consumption > 0.5"; "located_in == building1"]
                   _ _ _ _ _)).
  - reflexivity.
  - discriminate.
  - repeat constructor.
  - repeat constructor.
Defined.

(** No selector and a filter without operator: the call is rejected for its
    filter, and nothing is sent to the store. *)
Lemma read_zero_selectors_bad_filter_counterexample :
  ~ supplied None /\
  read example_types_entries example_store None None None
    (Some ["bad_clause_no_operator"])
  = (ErrorDict (invalid_filter "bad_clause_no_operator"), []).
Proof.
  split; [by apply nonblank_not_supplied | reflexivity].
Qed.

Lemma read_zero_selectors_witness :
  exists params,
    snd (read example_types_entries example_store None (Some " ")
           (Some "id,consumption") None)
    = [build_request params] /\
    params !! "type" = None /\ params !! "id" = None.
Proof.
  destruct (read_zero_selectors example_types_entries example_store
              None (Some " ") (Some "id,consumption") None) as [_ H].
  destruct H as [_ H].
  - by apply nonblank_not_supplied.
  - by apply nonblank_not_supplied.
  - exact (H None eq_refl).
Defined.

(** ** More on the dispatcher *)

Lemma app_inv_tail_str (s1 s2 t : string) : s1 +:+ t = s2 +:+ t -> s1 = s2.
Proof.
  intros H. pose proof (f_equal String.length H) as Hlen.
  rewrite !app_length_str in Hlen.
  destruct (app_eq_split s1 t s2 t H) as (m & -> & Hm); [lia |].
  rewrite app_length_str in Hlen. destruct m; [|simpl in Hlen; lia].
  by rewrite app_empty_r.
Qed.





Lemma elem_of_catalog_items (types_entries : list TypesEntry)
  (name : string) (td : TypeData) :
  (name, td) ∈ catalog_items types_entries -> type_in_catalog types_entries name.
Proof.
  unfold catalog_items. intros (entry & He & Hin)%list_elem_of_In%in_concat.
  by exists entry, td.
Qed.

Section MoreDispatcher.

Context {Json : Type}.
Variable types_entries : list TypesEntry.
Variable store : Request -> option Json.

Lemma read_query_refused (f : option (list string)) :
  (exists msg, read_query f = inl msg)
  <-> exists filters,
        f = Some filters /\ Exists (fun g => ~ has_operator g) filters.
Proof.
  split.
  - intros (msg & (fs & good & g & rest & -> & -> & _ & Hg & _)%read_query_error).
    exists (good ++ g :: rest). split; [done |].
    apply Exists_app. right. by left.
  - intros (filters & -> & H).
    destruct (normalize_error filters H) as (good & g & rest & -> & _ & _ & E).
    exists (invalid_filter g). unfold read_query. rewrite E.
    by destruct good.
Qed.

Lemma read_query_accepted (f : option (list string)) :
  f = None \/ (exists filters, f = Some filters /\ Forall has_operator filters) ->
  exists query, read_query f = inr query.
Proof.
  intros [->|(filters & -> & H)]; [by exists None |].
  destruct (normalize_ok filters H) as (clauses & E & _).
  unfold read_query. rewrite E. destruct filters; eauto.
Qed.

Lemma _read_requests (t o a : option string) (f : option (list string)) :
  (snd (_read store t o a f) = []
   <-> exists filters,
         f = Some filters /\ Exists (fun g => ~ has_operator g) filters) /\
  (snd (_read store t o a f) <> [] ->
   exists request,
     snd (_read store t o a f) = [request] /\
     fst (_read store t o a f)
     = match store request with
       | Some body => Objects body
       | None => Raised
       end).
Proof.
  rewrite <- read_query_refused. unfold _read.
  destruct (read_query f) as [msg|query] eqn:E; simpl.
  - split; [split; eauto | done].
  - split.
    + destruct (store _); simpl; (split; [done | by intros [? ?]]).
    + intros _. eexists. split; [by destruct (store _) |].
      by destruct (store _).
Qed.

(** X1. A call of [read] sends at most one request to the store. It sends
    none exactly when both selectors are supplied, or the type identifier
    supplied is no key of the catalog, or one of the filters holds no
    operator. In every other case it sends one request, and what it hands
    back is the decoded answer of the store to that request, as it is, or
    the exception raised on it. *)
Theorem read_single_request (t o a : option string)
  (f : option (list string)) :
  let result := read types_entries store t o a f in
  (snd result = []
   <-> (supplied t /\ supplied o) \/
       (exists s,
          t = Some s /\ supplied t /\ ~ type_in_catalog types_entries s) \/
       (exists filters,
          f = Some filters /\ Exists (fun g => ~ has_operator g) filters)) /\
  (snd result <> [] ->
   exists request,
     snd result = [request] /\
     fst result
     = match store request with
       | Some body => Objects body
       | None => Raised
       end).
Proof.
  simpl. destruct (_read_requests t o a f) as [Hnone Hone].
  unfold read.
  destruct (nonblank t) eqn:Et, (nonblank o) eqn:Eo; simpl.
  - apply nonblank_supplied in Et, Eo. split; [|done]. split; [tauto | done].
  - apply nonblank_not_supplied in Eo. destruct t as [s|]; [|done].
    destruct (type_exists types_entries s) eqn:Es; simpl.
    + apply type_exists_spec in Es. split; [|done].
      rewrite Hnone. split; [tauto |].
      intros [[_ ?]|[(s' & [= <-] & _ & ?)|?]]; done.
    + apply type_in_catalog_false in Es. apply nonblank_supplied in Et.
      split; [|done]. split; [|done]. intros _. right. left. by exists s.
  - apply nonblank_not_supplied in Et. destruct t as [s|].
    + split; [|done]. rewrite Hnone. split; [tauto |].
      intros [[? _]|[(s' & _ & ? & _)|?]]; done.
    + split; [|done]. rewrite Hnone. split; [tauto |].
      intros [[? _]|[(s' & _ & ? & _)|?]]; done.
  - apply nonblank_not_supplied in Et. destruct t as [s|].
    + split; [|done]. rewrite Hnone. split; [tauto |].
      intros [[? _]|[(s' & _ & ? & _)|?]]; done.
    + split; [|done]. rewrite Hnone. split; [tauto |].
      intros [[? _]|[(s' & _ & ? & _)|?]]; done.
Qed.

(** X2. [_read] does not look at the selectors. When the filters are
    absent or each hold an operator, it sends one request, whatever the
    selectors are, and hands back the decoded answer of the store to it or
    the exception raised on it; the parameter set of that request has the
    key [type] exactly when the type identifier is supplied and the key
    [id] exactly when the object identifier is supplied, each with the
    identifier as it was given: both keys when both are supplied, and a
    type identifier whether the catalog knows it or not. *)
Theorem _read_no_selector_check (t o a : option string)
  (f : option (list string)) :
  f = None \/ (exists filters, f = Some filters /\ Forall has_operator filters) ->
  exists request,
    snd (_read store t o a f) = [request] /\
    fst (_read store t o a f)
    = match store request with
      | Some body => Objects body
      | None => Raised
      end /\
    key_from (req_params request) "type" t /\
    key_from (req_params request) "id" o.
Proof.
  intros [query Hq]%read_query_accepted.
  exists (build_request (build_params t o query a)).
  pose proof (build_params_keys t o query a) as K. simpl in K.
  change (req_params (build_request (build_params t o query a)))
    with (build_params t o query a).
  split_and!; try apply K.
  - by apply _read_sends.
  - unfold _read. rewrite Hq. by destruct (store _).
Qed.


(** X5. A type name that [get_types] returns is never refused by [read] as
    an unknown type: it is a key of the catalog, and [read] with that name
    as its only selector hands the call to [_read]. *)
Theorem get_types_names_readable (keywords : option string) (name : string)
  (td : TypeData) :
  (name, td) ∈ get_types types_entries keywords ->
  type_in_catalog types_entries name /\
  forall a f,
    read types_entries store (Some name) None a f
    = _read store (Some name) None a f.
Proof.
  unfold get_types. intros Hin.
  assert (type_in_catalog types_entries name) as Hcat.
  { destruct keywords as [kw|]; [|by apply elem_of_nil in Hin].
    rewrite _get_types_selected in Hin.
    apply selected_sound in Hin as (Hin & _).
    by apply (elem_of_catalog_items _ _ td). }
  split; [done |]. intros a f. apply read_delegates.
  - by intros [_ (s & [=] & _)].
  - by intros s [= <-] _.
Qed.

End MoreDispatcher.

(** X3. The three error messages tell the failed check and the offending
    input apart: no two of them are equal, whatever the type identifier and
    the filter are, and the unknown-type and invalid-filter messages each
    determine the identifier or filter they quote. *)
Theorem error_messages_distinct (s s' f f' : string) :
  conflicting_selectors <> unknown_type s /\
  conflicting_selectors <> invalid_filter f /\
  unknown_type s <> invalid_filter f /\
  (unknown_type s = unknown_type s' -> s = s') /\
  (invalid_filter f = invalid_filter f' -> f = f').
Proof.
  split_and!; try done.
  - unfold unknown_type. intros H%app_inv_head_str.
    by apply app_inv_tail_str in H.
  - unfold invalid_filter. intros H%app_inv_head_str.
    by apply app_inv_tail_str in H.
Qed.

(** ** More on the keyword resolver *)

Lemma isspace_lower_char (c : ascii) :
  Py.isspace (Py.lower_char c) = Py.isspace c.
Proof. each_char c. Qed.

Lemma lower_char_lower_char (c : ascii) :
  Py.lower_char (Py.lower_char c) = Py.lower_char c.
Proof. each_char c. Qed.

Lemma comma_lower_char (c : ascii) :
  Ascii.eqb (Py.lower_char c) ","%char = Ascii.eqb c ","%char.
Proof. each_char c. Qed.

Lemma lower_lower (s : string) : Py.lower (Py.lower s) = Py.lower s.
Proof.
  induction s as [|c s IH]; simpl; [done |].
  by rewrite lower_char_lower_char, IH.
Qed.

Lemma lower_empty (s : string) : Py.lower s = "" <-> s = "".
Proof. by destruct s. Qed.

Lemma lstrip_lower (s : string) : Py.lstrip (Py.lower s) = Py.lower (Py.lstrip s).
Proof.
  induction s as [|c s IH]; simpl; [done |].
  rewrite isspace_lower_char. by destruct (Py.isspace c).
Qed.

Lemma rstrip_lower (s : string) : Py.rstrip (Py.lower s) = Py.lower (Py.rstrip s).
Proof.
  induction s as [|c s IH]; simpl; [done |].
  rewrite IH, isspace_lower_char.
  destruct (Py.rstrip s); simpl; [by destruct (Py.isspace c) | done].
Qed.

Lemma strip_lower (s : string) : Py.strip (Py.lower s) = Py.lower (Py.strip s).
Proof. unfold Py.strip. by rewrite lstrip_lower, rstrip_lower. Qed.

Lemma split_comma_lower (s : string) :
  Py.split ","%char (Py.lower s) = map Py.lower (Py.split ","%char s).
Proof.
  induction s as [|c s IH]; simpl; [done |].
  rewrite comma_lower_char, IH.
  destruct (Ascii.eqb c ","%char); [done |].
  pose proof (split_nonempty ","%char s) as Hne.
  by destruct (Py.split ","%char s).
Qed.

Lemma requested_attributes_lower (kw : string) :
  requested_attributes_of (Py.lower kw) = requested_attributes_of kw.
Proof.
  unfold requested_attributes_of. rewrite split_comma_lower.
  induction (Py.split ","%char kw) as [|a l IH]; simpl; [done |].
  rewrite strip_lower.
  destruct (String.eqb_spec (Py.lower (Py.strip a)) "") as [E|E],
           (String.eqb_spec (Py.strip a) "") as [E'|E']; simpl.
  - done.
  - by apply (proj1 (lower_empty _)) in E.
  - rewrite E' in E. done.
  - by rewrite strip_lower, lower_lower, IH.
Qed.

(** [Py.split] of two strings joined by the separator. *)
Lemma split_app (sep : ascii) (x y : string) :
  Py.split sep (x +:+ String sep y) = Py.split sep x ++ Py.split sep y.
Proof.
  induction x as [|c x IH]; simpl.
  - by rewrite Ascii.eqb_refl.
  - rewrite IH. destruct (Ascii.eqb c sep); [done |].
    pose proof (split_nonempty sep x) as Hne.
    by destruct (Py.split sep x).
Qed.

Lemma requested_attributes_app (kw1 kw2 : string) :
  requested_attributes_of (kw1 +:+ String ","%char kw2)
  = requested_attributes_of kw1 ++ requested_attributes_of kw2.
Proof.
  unfold requested_attributes_of.
  by rewrite split_app, List.filter_app, List.map_app.
Qed.

Lemma any_token_in_ext (req1 req2 : list string) (text : string) :
  (forall k, In k req1 <-> In k req2) ->
  any_token_in req1 text = any_token_in req2 text.
Proof.
  intros H. apply eq_true_iff_eq. rewrite !any_token_in_spec.
  by setoid_rewrite H.
Qed.

Lemma scan_attributes_ext (req1 req2 : list string)
  (attributes : list AttributeEntry) :
  (forall k, In k req1 <-> In k req2) ->
  scan_attributes req1 attributes = scan_attributes req2 attributes.
Proof.
  intros H. induction attributes as [|a rest IH]; simpl; [done |].
  by rewrite (any_token_in_ext req1 req2 _ H), IH.
Qed.

Lemma type_hit_ext (req1 req2 : list string) (td : TypeData) :
  (forall k, In k req1 <-> In k req2) ->
  type_hit req1 td = type_hit req2 td.
Proof.
  intros H. unfold type_hit.
  by rewrite (any_token_in_ext req1 req2 _ H), (scan_attributes_ext req1 req2 _ H).
Qed.

Lemma selected_ext (req1 req2 : list string) (seen : gset string)
  (items : list (string * TypeData)) :
  (forall td, type_hit req1 td = type_hit req2 td) ->
  selected req1 seen items = selected req2 seen items.
Proof.
  intros H. revert seen.
  induction items as [|[n td] rest IH]; intros seen; simpl; [done |].
  rewrite H. destruct (type_hit req2 td); [case_decide |]; by rewrite ?IH.
Qed.

Lemma type_hit_app (req1 req2 : list string) (td : TypeData) :
  type_hit (req1 ++ req2) td = type_hit req1 td || type_hit req2 td.
Proof.
  apply eq_true_iff_eq. unfold type_hit.
  rewrite !orb_true_iff, !any_token_in_spec, !scan_attributes_spec.
  setoid_rewrite any_token_in_spec. setoid_rewrite in_app_iff.
  split.
  - intros [(k & [Hk|Hk] & Ho)|(a & Ha & k & [Hk|Hk] & Ho)]; eauto 10.
  - intros [[(k & Hk & Ho)|(a & Ha & k & Hk & Ho)]
           |[(k & Hk & Ho)|(a & Ha & k & Hk & Ho)]]; eauto 10.
Qed.

(** The names [selected] returns: those of the items that hit and were not
    seen before. *)
Lemma selected_names (requested : list string) (seen : gset string)
  (items : list (string * TypeData)) (n : string) :
  n ∈ (selected requested seen items).*1
  <-> (n ∉ seen) /\
      exists td, (n, td) ∈ items /\ type_hit requested td = true.
Proof.
  split.
  - intros ([m td] & -> & (? & ? & ?)%selected_sound)%list_elem_of_fmap.
    split; [done | by exists td].
  - intros [Hs (td & Hin & Hhit)].
    by destruct (selected_complete requested seen items n td Hin Hhit).
Qed.

Lemma selected_app (requested : list string) (seen : gset string)
  (items1 items2 : list (string * TypeData)) :
  selected requested seen (items1 ++ items2)
  = selected requested seen items1
    ++ selected requested
         (list_to_set ((selected requested seen items1).*1) ∪ seen) items2.
Proof.
  revert seen. induction items1 as [|[n td] rest IH]; intros seen; simpl.
  - f_equal. by rewrite (left_id_L ∅ (∪)).
  - destruct (type_hit requested td); [case_decide |]; try apply IH.
    simpl. rewrite IH. do 3 f_equal.
    by rewrite (assoc_L (∪)), (comm_L (∪) _ {[n]}).
Qed.

Lemma split_parts_space (s : string) :
  string_forall comma_or_space s = true
  <-> Forall (fun a => all_space a = true) (Py.split ","%char s).
Proof.
  induction s as [|c s IH]; simpl.
  - split; [by repeat constructor | done].
  - unfold comma_or_space at 1.
    destruct (Ascii.eqb c ","%char) eqn:Ec.
    + rewrite orb_true_r. simpl. rewrite IH. split.
      * by constructor.
      * by intros [_ ?]%Forall_cons.
    + rewrite orb_false_r, andb_true_iff, IH.
      pose proof (split_nonempty ","%char s) as Hne.
      destruct (Py.split ","%char s) as [|h t]; [done |].
      rewrite !Forall_cons. simpl. rewrite andb_true_iff. tauto.
Qed.

Lemma requested_attributes_none (kw : string) :
  requested_attributes_of kw = []
  <-> string_forall comma_or_space kw = true.
Proof.
  rewrite split_parts_space. unfold requested_attributes_of.
  induction (Py.split ","%char kw) as [|a l IH]; simpl; [done |].
  destruct (String.eqb_spec (Py.strip a) "") as [E|E]; simpl.
  - rewrite IH, Forall_cons.
    pose proof (strip_empty_all_space a E). tauto.
  - split; [done |]. intros [Ha%all_space_strip_empty _]%Forall_cons. done.
Qed.

Lemma first_char_lower (s : string) :
  first_char (Py.lower s) = Py.lower_char <$> first_char s.
Proof. by destruct s. Qed.

Lemma last_char_lower (s : string) :
  last_char (Py.lower s) = Py.lower_char <$> last_char s.
Proof.
  induction s as [|c s IH]; simpl; [done |].
  rewrite IH. by destruct s.
Qed.

Lemma trimmed_lower (s : string) : trimmed (Py.lower s) = trimmed s.
Proof.
  unfold trimmed. rewrite first_char_lower, last_char_lower.
  destruct (first_char s), (last_char s); simpl;
    by rewrite ?isspace_lower_char.
Qed.

Lemma no_comma_lower (s : string) :
  string_forall (fun c => negb (Ascii.eqb c ","%char)) (Py.lower s)
  = string_forall (fun c => negb (Ascii.eqb c ","%char)) s.
Proof.
  induction s as [|c s IH]; simpl; [done |].
  by rewrite comma_lower_char, IH.
Qed.

(** X6. Every keyword the resolver matches with is non-empty, has no white
    space at either end, is in lower case and holds no comma: empty
    elements of the keywords string (as after a trailing comma) are
    dropped, so that none of them matches every description. *)
Theorem requested_attributes_normal (kw k : string) :
  In k (requested_attributes_of kw) ->
  k <> "" /\ trimmed k = true /\ Py.lower k = k /\
  string_forall (fun c => negb (Ascii.eqb c ","%char)) k = true.
Proof.
  unfold requested_attributes_of.
  intros (a & <- & [Ha Hne]%filter_In)%in_map_iff.
  apply negb_true_iff, String.eqb_neq in Hne. split_and!.
  - by rewrite lower_empty.
  - rewrite trimmed_lower. apply strip_trimmed.
  - apply lower_lower.
  - rewrite no_comma_lower. apply string_forall_strip.
    pose proof (split_parts_no_separator ","%char kw) as H.
    rewrite Forall_forall in H. by apply H, list_elem_of_In.
Qed.

Section MoreResolver.

Variable types_entries : list TypesEntry.

(** X7. The resolver has no keyword to match with exactly when the keywords
    string holds nothing but commas and white space, and then it returns
    the empty list. *)
Theorem get_types_no_keyword (kw : string) :
  (requested_attributes_of kw = []
   <-> string_forall comma_or_space kw = true) /\
  (string_forall comma_or_space kw = true ->
   get_types types_entries (Some kw) = []).
Proof.
  split; [apply requested_attributes_none |].
  intros H%requested_attributes_none. unfold get_types.
  by rewrite _get_types_selected, H, selected_no_keyword.
Qed.

(** X8. The result depends on the keywords as a set only: two keywords
    strings with the same keywords, in whatever order and however often
    repeated, give the same list. *)
Theorem get_types_keyword_set (kw1 kw2 : string) :
  (forall k,
     In k (requested_attributes_of kw1) <-> In k (requested_attributes_of kw2)) ->
  get_types types_entries (Some kw1) = get_types types_entries (Some kw2).
Proof.
  intros H. unfold get_types. rewrite !_get_types_selected.
  apply selected_ext. intros td. by apply type_hit_ext.
Qed.

(** X9. The case of the keywords does not matter: two keywords strings that
    are equal in lower case give the same list. *)
Theorem get_types_case_insensitive (kw1 kw2 : string) :
  Py.lower kw1 = Py.lower kw2 ->
  get_types types_entries (Some kw1) = get_types types_entries (Some kw2).
Proof.
  intros H. unfold get_types. rewrite !_get_types_selected.
  by rewrite <- (requested_attributes_lower kw1), H,
    requested_attributes_lower.
Qed.

(** X10. The comma is a disjunction: a type name is returned for two
    keywords strings joined by a comma exactly when it is returned for one
    of the two. *)
Theorem get_types_comma_union (kw1 kw2 : string) (name : string) :
  name ∈ (get_types types_entries (Some (kw1 +:+ String ","%char kw2))).*1
  <-> name ∈ (get_types types_entries (Some kw1)).*1 \/
      name ∈ (get_types types_entries (Some kw2)).*1.
Proof.
  unfold get_types.
  rewrite !_get_types_selected, !selected_names, requested_attributes_app.
  split.
  - intros [Hs (td & Hin & Hh)]. rewrite type_hit_app in Hh.
    apply orb_true_iff in Hh as [Hh|Hh]; [left | right];
      (split; [done |]); by exists td.
  - intros [[Hs (td & Hin & Hh)]|[Hs (td & Hin & Hh)]];
      (split; [done |]); exists td; (split; [done |]);
      rewrite type_hit_app, Hh; [done | by rewrite orb_true_r].
Qed.

End MoreResolver.

(** X11. Entries added at the end of the catalog leave the types returned
    before in place: the result on the longer catalog starts with the
    result on the shorter one. *)
Theorem get_types_catalog_extension (types_entries more : list TypesEntry)
  (keywords : option string) :
  (get_types types_entries keywords)
  `prefix_of` (get_types (types_entries ++ more) keywords).
Proof.
  unfold get_types. destruct keywords as [kw|]; [|by exists []].
  rewrite !_get_types_selected. unfold catalog_items.
  rewrite concat_app, selected_app. by eexists.
Qed.

(** ** More on the normalizer *)

(** *** Lists of filters put together *)

Lemma normalize_loop_acc (filters acc : list string) :
  normalize_loop filters acc
  = match normalize_loop filters [] with
    | inl msg => inl msg
    | inr clauses => inr (acc ++ clauses)
    end.
Proof.
  revert acc. induction filters as [|f rest IH]; intros acc; simpl.
  - by rewrite app_nil_r.
  - destruct (normalize_filter f) as [msg|c]; [done |].
    rewrite (IH (acc ++ [c])), (IH [c]).
    destruct (normalize_loop rest []); [done | by rewrite <- app_assoc].
Qed.

Lemma normalize_loop_app (filters1 filters2 acc : list string) :
  normalize_loop (filters1 ++ filters2) acc
  = match normalize_loop filters1 acc with
    | inl msg => inl msg
    | inr acc' => normalize_loop filters2 acc'
    end.
Proof.
  revert acc. induction filters1 as [|f rest IH]; intros acc; simpl; [done |].
  destruct (normalize_filter f); [done | apply IH].
Qed.

Lemma normalize_loop_length (filters clauses : list string) :
  normalize_loop filters [] = inr clauses -> length clauses = length filters.
Proof.
  intros (rendered & -> & HF)%normalize_loop_inr. simpl.
  symmetry. by apply Forall2_length in HF.
Qed.

Lemma join_app (sep : string) (parts1 parts2 : list string) :
  parts1 <> [] -> parts2 <> [] ->
  Py.join sep (parts1 ++ parts2)
  = Py.join sep parts1 +:+ sep +:+ Py.join sep parts2.
Proof.
  intros H1 H2. induction parts1 as [|x rest IH]; [done |].
  destruct rest as [|y rest].
  - destruct parts2; done.
  - change (Py.join sep ((x :: y :: rest) ++ parts2))
      with (x +:+ sep +:+ Py.join sep ((y :: rest) ++ parts2)).
    rewrite IH by done.
    change (Py.join sep (x :: y :: rest))
      with (x +:+ sep +:+ Py.join sep (y :: rest)).
    by rewrite !app_assoc_str.
Qed.

(** X12. Normalizing two lists of filters one after the other: the first
    error of the two is the error of the whole, and when both succeed the
    query of the whole is the two queries joined with [;] (or the one of
    them that is there, when a list is empty). *)
Theorem normalize_app (filters1 filters2 : list string) :
  normalize (filters1 ++ filters2)
  = match normalize filters1, normalize filters2 with
    | inl msg, _ => inl msg
    | inr _, inl msg => inl msg
    | inr query1, inr query2 =>
        inr (match filters1, filters2 with
             | [], _ => query2
             | _, [] => query1
             | _, _ => query1 +:+ ";" +:+ query2
             end)
    end.
Proof.
  unfold normalize. rewrite normalize_loop_app.
  destruct (normalize_loop filters1 []) as [msg|cs1] eqn:E1; [done |].
  rewrite normalize_loop_acc.
  destruct (normalize_loop filters2 []) as [msg|cs2] eqn:E2; [done |].
  apply normalize_loop_length in E1, E2. f_equal.
  destruct filters1 as [|f1 fs1].
  - by destruct cs1.
  - destruct filters2 as [|f2 fs2].
    + destruct cs2; [by rewrite app_nil_r | done].
    + apply join_app; [by destruct cs1 | by destruct cs2].
Qed.

(** *** The value of a clause *)

Lemma quote_value_literal (raw : string) :
  is_number (quote_value raw) = true \/ is_quoted (quote_value raw) = true.
Proof.
  rewrite quote_value_cases.
  destruct (is_number raw) eqn:En; [by left |].
  destruct (is_quoted raw) eqn:Eq; simpl; [by right |].
  right. apply (is_quoted_wrapped dquote raw eq_refl).
Qed.

Lemma quote_value_nonempty (raw : string) : quote_value raw <> "".
Proof.
  destruct (quote_value_literal raw) as [H|H]; intros E; rewrite E in H; done.
Qed.

(** X13. In every clause the normalizer renders, what follows the operator
    at which the filter was split (the first operator of the priority
    order that occurs in it, at its leftmost occurrence) is the right part
    without the white space at its ends, as it is or between two double
    quotes; it is not empty and is a literal of the query language: a
    string [float] accepts, or a string of two characters or more with the
    same quote character first and last. *)
Theorem clause_value_literal (filter_str clause : string) :
  normalize_filter filter_str = inr clause ->
  exists op l r attr raw_value value,
    earliest_operator op filter_str /\
    first_occurrence op filter_str l r /\
    is_trim_of l attr /\
    is_trim_of r raw_value /\
    rendered_value raw_value value /\
    clause = attr +:+ op +:+ value /\
    (value = raw_value \/
     value = double_quote +:+ raw_value +:+ double_quote) /\
    value <> "" /\
    (is_number value = true \/
     (2 <= String.length value /\ pre_quoted value)).
Proof.
  intros (attr & op & raw & E & ->)%normalize_filter_scan.
  apply scan_operators_some in E
    as (before & after & l & r & Hops & Hb & Ho & Hf & -> & ->).
  exists op, l, r, (Py.strip l), (Py.strip r), (quote_value (Py.strip r)).
  split_and!; try done.
  - exists before, after. by rewrite <- supported_operators_priority.
  - apply strip_is_trim.
  - apply strip_is_trim.
  - by apply rendered_value_spec.
  - rewrite quote_value_cases.
    destruct (is_number (Py.strip r) || is_quoted (Py.strip r)); tauto.
  - apply quote_value_nonempty.
  - destruct (quote_value_literal (Py.strip r)) as [H|H%is_quoted_spec]; tauto.
Qed.

(** *** Filters written with a comparison operator *)








(** *** White space around a filter *)

Lemma space_not_first (op : string) (c : ascii) (s : string) :
  op <> "" -> no_space op = true -> Py.isspace c = true ->
  Py.strip_prefix op (String c s) = None.
Proof.
  destruct op as [|a op]; [done |]. unfold no_space. simpl.
  intros _ [Ha _]%andb_true_iff Hc.
  destruct (Ascii.eqb_spec a c) as [->|]; [|done].
  by rewrite Hc in Ha.
Qed.

Lemma strip_prefix_app_some (op s r w : string) :
  Py.strip_prefix op s = Some r ->
  Py.strip_prefix op (s +:+ w) = Some (r +:+ w).
Proof.
  intros ->%strip_prefix_spec. apply strip_prefix_spec.
  by rewrite app_assoc_str.
Qed.

Lemma strip_prefix_pad (op s w : string) :
  no_space op = true -> all_space w = true ->
  Py.strip_prefix op s = None ->
  Py.strip_prefix op (s +:+ w) = None.
Proof.
  intros Hop Hw. revert s. induction op as [|a op IH]; intros s; [done |].
  destruct s as [|b s]; simpl.
  - intros _. destruct w as [|c w]; [done |].
    simpl in Hw. apply andb_true_iff in Hw as [Hc _].
    by apply (space_not_first (String a op) c w).
  - apply andb_true_iff in Hop as [_ Hop].
    destruct (Ascii.eqb a b); [by apply IH | done].
Qed.

Lemma contains_space (op w : string) :
  op <> "" -> no_space op = true -> all_space w = true ->
  Py.contains op w = false.
Proof.
  intros Hne Hop. induction w as [|c w IH]; simpl.
  - by destruct op.
  - intros [Hc Hw]%andb_true_iff.
    rewrite (space_not_first op c w Hne Hop Hc). auto.
Qed.

Lemma contains_false_partition (op s : string) :
  Py.contains op s = false -> Py.partition op s = None.
Proof.
  intros H. destruct (Py.partition op s) as [[l r]|] eqn:E; [|done].
  apply partition_spec in E as [-> _].
  apply contains_false in H. destruct H. by exists l, r.
Qed.

Lemma contains_pad_r (op s w : string) :
  op <> "" -> no_space op = true -> all_space w = true ->
  Py.contains op (s +:+ w) = Py.contains op s.
Proof.
  intros Hne Hop Hw. induction s as [|c s IH].
  - simpl. rewrite (contains_space op w) by done. by destruct op.
  - change (String c s +:+ w) with (String c (s +:+ w)).
    cbn [Py.contains].
    change (String c (s +:+ w)) with (String c s +:+ w).
    destruct (Py.strip_prefix op (String c s)) as [r|] eqn:E.
    + by rewrite (strip_prefix_app_some _ _ _ w E).
    + by rewrite (strip_prefix_pad _ _ w Hop Hw E).
Qed.

Lemma partition_pad_r (op s w : string) :
  op <> "" -> no_space op = true -> all_space w = true ->
  Py.partition op (s +:+ w)
  = match Py.partition op s with
    | Some (l, r) => Some (l, r +:+ w)
    | None => None
    end.
Proof.
  intros Hne Hop Hw. induction s as [|c s IH].
  - simpl. rewrite (contains_false_partition op w)
      by (by apply contains_space).
    by destruct op.
  - change (String c s +:+ w) with (String c (s +:+ w)).
    cbn [Py.partition].
    change (String c (s +:+ w)) with (String c s +:+ w).
    destruct (Py.strip_prefix op (String c s)) as [r|] eqn:E.
    + by rewrite (strip_prefix_app_some _ _ _ w E).
    + rewrite (strip_prefix_pad _ _ w Hop Hw E), IH.
      by destruct (Py.partition op s) as [[l r]|].
Qed.

Lemma contains_pad_l (op w s : string) :
  op <> "" -> no_space op = true -> all_space w = true ->
  Py.contains op (w +:+ s) = Py.contains op s.
Proof.
  intros Hne Hop. induction w as [|c w IH]; [done |].
  intros [Hc Hw]%andb_true_iff.
  change (String c w +:+ s) with (String c (w +:+ s)). cbn [Py.contains].
  rewrite (space_not_first op c _ Hne Hop Hc). auto.
Qed.

Lemma partition_pad_l (op w s : string) :
  op <> "" -> no_space op = true -> all_space w = true ->
  Py.partition op (w +:+ s)
  = match Py.partition op s with
    | Some (l, r) => Some (w +:+ l, r)
    | None => None
    end.
Proof.
  intros Hne Hop. induction w as [|c w IH].
  - intros _. simpl. by destruct (Py.partition op s) as [[l r]|].
  - intros [Hc Hw]%andb_true_iff.
    change (String c w +:+ s) with (String c (w +:+ s)). cbn [Py.partition].
    rewrite (space_not_first op c _ Hne Hop Hc), (IH Hw).
    by destruct (Py.partition op s) as [[l r]|].
Qed.

Lemma scan_operators_pad (operators : list string) (w1 f w2 : string) :
  Forall (fun op => op <> "" /\ no_space op = true) operators ->
  all_space w1 = true -> all_space w2 = true ->
  scan_operators operators (w1 +:+ f +:+ w2) = scan_operators operators f.
Proof.
  intros Hops H1 H2. induction Hops as [|op rest [Hne Hop] _ IH]; [done |].
  simpl. rewrite contains_pad_l, contains_pad_r by done.
  destruct (Py.contains op f); [|done]. unfold Py.split1.
  rewrite partition_pad_l, partition_pad_r by done.
  destruct (Py.partition op f) as [[l r]|]; [|done].
  by rewrite strip_pad_l, strip_pad_r.
Qed.

Lemma supported_operators_no_space :
  Forall (fun op => op <> "" /\ no_space op = true) supported_operators.
Proof. by repeat constructor. Qed.

(** X15. White space before and after a filter string has no effect on its
    clause: the padded filter is normalized to the same clause, and is
    refused exactly when the filter is (with the padded string in the
    message). *)
Theorem normalize_filter_padding (w1 f w2 : string) :
  all_space w1 = true -> all_space w2 = true ->
  normalize_filter (w1 +:+ f +:+ w2)
  = match normalize_filter f with
    | inr clause => inr clause
    | inl _ => inl (invalid_filter (w1 +:+ f +:+ w2))
    end.
Proof.
  intros H1 H2. unfold normalize_filter.
  rewrite (scan_operators_pad _ w1 f w2 supported_operators_no_space H1 H2).
  destruct (scan_operators supported_operators f) as [[[attr op] raw]|];
    [|done].
  by destruct (String.eqb op "").
Qed.

(** ** The test run *)





Section TestRun.

Context {Json : Type}.
Variable types_entries : list TypesEntry.
Variable store : Request -> option Json.



End TestRun.

(** ** The benchmark client *)

(** X17. The benchmark compares the answer with the expected one up to
    white space at both ends of either: padding them with white space
    does not change the column, and an answer that is missing matches
    exactly the expected answers that are blank. *)
Theorem matches_expected_padding (w1 w2 w3 w4 output expected : string) :
  all_space w1 = true -> all_space w2 = true ->
  all_space w3 = true -> all_space w4 = true ->
  matches_expected (Some (w1 +:+ output +:+ w2)) (w3 +:+ expected +:+ w4)
  = matches_expected (Some output) expected /\
  (matches_expected None expected = true <-> all_space expected = true).
Proof.
  intros H1 H2 H3 H4. unfold matches_expected. cbv zeta. split.
  - by rewrite (strip_pad_l w1), (strip_pad_r output w2), (strip_pad_l w3),
      (strip_pad_r expected w4).
  - change (Py.strip "") with "". rewrite String.eqb_eq. split.
    + intros H. by apply strip_empty_all_space.
    + intros H. by rewrite all_space_strip_empty.
Qed.

(** ** Further worked examples *)

Lemma get_types_names_readable_witness :
  ("thermometer",
   {| td_description := "A sensor that measures Temperature";
      td_attributes :=
        [ {| attr_name := "temperature";
             attr_description := "Degrees Celsius" |} ] |})
  ∈ get_types example_types_entries (Some "temperature") /\
  type_in_catalog example_types_entries "thermometer" /\
  read example_types_entries example_store (Some "thermometer") None None
    (Some ["temperature>30"])
  = _read example_store (Some "thermometer") None None
      (Some ["temperature>30"]).
Proof.
  assert (("thermometer",
           {| td_description := "A sensor that measures Temperature";
              td_attributes :=
                [ {| attr_name := "temperature";
                     attr_description := "Degrees Celsius" |} ] |})
          ∈ get_types example_types_entries (Some "temperature")) as H.
  { vm_compute. apply list_elem_of_here. }
  split; [exact H |].
  destruct (get_types_names_readable example_types_entries example_store
              _ _ _ H) as [H1 H2].
  split; [exact H1 | apply H2].
Defined.

Lemma requested_attributes_normal_witness :
  In "humidity" (requested_attributes_of " temperature , Humidity ,,") /\
  "humidity" <> "" /\ trimmed "humidity" = true /\
  Py.lower "humidity" = "humidity".
Proof.
  assert (In "humidity" (requested_attributes_of " temperature , Humidity ,,"))
    as H by (vm_compute; tauto).
  split; [exact H |].
  destruct (requested_attributes_normal _ _ H) as (H1 & H2 & H3 & _).
  split; [exact H1 |]. split; [exact H2 | exact H3].
Defined.

Lemma get_types_keyword_set_witness :
  get_types example_types_entries (Some "power,humidity")
  = get_types example_types_entries (Some " humidity, power,,humidity").
Proof.
  apply get_types_keyword_set. intros k. vm_compute. tauto.
Defined.

Lemma get_types_case_insensitive_witness :
  get_types example_types_entries (Some "Temperature,HUMIDITY")
  = get_types example_types_entries (Some "tEMPERATURE,humidity").
Proof. apply get_types_case_insensitive. reflexivity. Defined.

(** The filter is split at [==], not at the [<] of its value, and the
    value is wrapped. *)
Lemma clause_value_literal_witness :
  normalize_filter "located_in == a<5"
  = inr ("located_in==" +:+ double_quote +:+ "a<5" +:+ double_quote) /\
  exists op l r attr raw_value value,
    earliest_operator op "located_in == a<5" /\
    first_occurrence op "located_in == a<5" l r /\
    is_trim_of l attr /\
    is_trim_of r raw_value /\
    rendered_value raw_value value /\
    "located_in==" +:+ double_quote +:+ "a<5" +:+ double_quote
    = attr +:+ op +:+ value /\
    (value = raw_value \/
     value = double_quote +:+ raw_value +:+ double_quote) /\
    value <> "" /\
    (is_number value = true \/
     (2 <= String.length value /\ pre_quoted value)).
Proof.
  assert (normalize_filter "located_in == a<5"
          = inr ("located_in==" +:+ double_quote +:+ "a<5"
                 +:+ double_quote)) as H by reflexivity.
  split; [exact H |].
  exact (clause_value_literal _ _ H).
Defined.

(** [_read] with both selectors, the type one unknown to the catalog: one
    request, with both keys. *)
Lemma _read_no_selector_check_witness :
  exists request,
    _read example_store (Some "nonexistent_type") (Some "urn:mcp:plug1")
      None None
    = (Objects ["urn:mcp:plug1"], [request]) /\
    req_params request !! "type" = Some "nonexistent_type" /\
    req_params request !! "id" = Some "urn:mcp:plug1" /\
    key_from (req_params request) "type" (Some "nonexistent_type") /\
    key_from (req_params request) "id" (Some "urn:mcp:plug1").
Proof.
  destruct (_read_no_selector_check example_store
              (Some "nonexistent_type") (Some "urn:mcp:plug1") None None)
    as (request & Hr & _ & Kt & Ki); [by left |].
  assert (snd (_read example_store (Some "nonexistent_type")
                 (Some "urn:mcp:plug1") None None)
          = [build_request (build_params (Some "nonexistent_type")
                              (Some "urn:mcp:plug1") None None)]) as E
    by reflexivity.
  rewrite E in Hr. injection Hr as <-. eexists.
  split; [reflexivity |]. split; [reflexivity |]. split; [reflexivity |].
  split; [exact Kt | exact Ki].
Defined.


Lemma normalize_filter_padding_witness :
  normalize_filter ("  " +:+ "temperature>30" +:+ " ")
  = match normalize_filter "temperature>30" with
    | inr clause => inr clause
    | inl _ => inl (invalid_filter ("  " +:+ "temperature>30" +:+ " "))
    end.
Proof. apply normalize_filter_padding; reflexivity. Defined.


Lemma matches_expected_padding_witness :
  matches_expected (Some (" " +:+ "21.5" +:+ "  ")) ("" +:+ "21.5" +:+ " ")
  = matches_expected (Some "21.5") "21.5".
Proof.
  refine (proj1 (matches_expected_padding " " "  " "" " " "21.5" "21.5"
                   _ _ _ _)); reflexivity.
Defined.

